(** * Deep Recurrent Survival Analysis (DRSA): model of the [DRSA] module

    The repository defines one class, [DRSA(nn.Module)], twice: in
    [src/unnamed/part_000] and, without the [params_to_train] line, in
    [src/notebooks/01_model.ipynb].  This file embeds its constructor and
    its [forward] method together with the PyTorch operations they call
    (indexing, [torch.cat], [nn.Embedding], [nn.LSTM], [nn.Linear],
    [nn.Dropout], [nn.Sigmoid], module registration and [parameters()]).

    Conventions.
    - Tensor entries are real numbers ([R]); [.float()] is therefore the
      identity and rounding of float32 arithmetic is idealised away.
    - A tensor of rank [r] is an [r]-fold nested list.  Nested lists cannot
      record the extent of axes that sit below an axis of extent zero, so
      shapes are stated ([has_shape]) for tensors with a non-empty batch and
      non-empty sequences.  A list of empty sequences stands for a tensor
      without time steps that has the columns [forward] indexes.
    - Python exceptions are values of [exn]; a computation that may raise
      returns a [result].
    - Trainable parameter blocks live in a store indexed by an identifier
      (Python object identity); modules hold identifiers, so that two
      references to one module alias the same block.
    - The random draws of a dropout layer are an explicit argument.
    - Library calls behave as PyTorch documents them for CPU tensors; which
      exception class a call raises is taken from the current release. *)

From Stdlib Require Import String.
From Stdlib Require Import Reals Lra Lia ZArith List Bool.
Import ListNotations.

(** ** Exceptions and fallible computations *)

Inductive exn : Type :=
| IndexError
| RuntimeError
| ValueError.

Inductive result (A : Type) : Type :=
| Ok (a : A)
| Raise (e : exn).

Arguments Ok {A} a.
Arguments Raise {A} e.

Definition bind {A B : Type} (c : result A) (k : A -> result B) : result B :=
  match c with
  | Ok a => k a
  | Raise e => Raise e
  end.

Declare Scope result_scope.
Delimit Scope result_scope with result.
Notation "x <- c ;; k" := (bind c (fun x => k))
  (at level 61, c at next level, right associativity) : result_scope.
Open Scope result_scope.

(** Left-to-right traversal; the first exception wins, as in a Python list
    comprehension. *)
Fixpoint mapM {A B : Type} (f : A -> result B) (l : list A) : result (list B) :=
  match l with
  | [] => Ok []
  | a :: l' => b <- f a ;; bs <- mapM f l' ;; Ok (b :: bs)
  end.

(** [enumerate]: traversal with the running position. *)
Fixpoint mapM_enum {A B : Type} (f : nat -> A -> result B) (i : nat) (l : list A)
  : result (list B) :=
  match l with
  | [] => Ok []
  | a :: l' => b <- f i a ;; bs <- mapM_enum f (S i) l' ;; Ok (b :: bs)
  end.

Fixpoint imap_from {A B : Type} (f : nat -> A -> B) (i : nat) (l : list A) : list B :=
  match l with
  | [] => []
  | a :: l' => f i a :: imap_from f (S i) l'
  end.

Definition imap {A B : Type} (f : nat -> A -> B) (l : list A) : list B :=
  imap_from f 0 l.

(** ** Tensors *)

Fixpoint tensor (A : Type) (r : nat) : Type :=
  match r with
  | O => A
  | S r' => list (tensor A r')
  end.

Fixpoint tmap {A B : Type} (f : A -> B) (r : nat) : tensor A r -> tensor B r :=
  match r return tensor A r -> tensor B r with
  | O => f
  | S r' => map (tmap f r')
  end.

(** [has_shape sh X]: the nested list [X] stands for a tensor of shape
    [sh].  A nested list determines the extents of its axes only when every
    axis but the last is non-empty, so those extents are positive. *)
Fixpoint has_shape {A : Type} (sh : list nat) (r : nat) : tensor A r -> Prop :=
  match r return tensor A r -> Prop with
  | O => fun _ => sh = []
  | S r' => fun X =>
      match sh with
      | [] => False
      | n :: sh' =>
          length X = n /\ (sh' = [] \/ (0 < n)%nat) /\ Forall (has_shape sh' r') X
      end
  end.

(** [X[:, :, i]]: integer index on axis 2.  An index past the extent of the
    axis raises [IndexError]. *)
Definition select2 {A : Type} (i : nat) (X : list (list (list A)))
  : result (list (list A)) :=
  mapM (mapM (fun v : list A =>
                match nth_error v i with
                | Some x => Ok x
                | None => Raise IndexError
                end)) X.

(** [X[:, :, k:]]: slice on axis 2; a slice never raises and is empty when
    [k] is past the extent. *)
Definition narrow2 {A : Type} (k : nat) (X : list (list (list A)))
  : list (list (list A)) :=
  map (map (skipn k (A:=A))) X.

(** [.long()]: conversion to integers truncates toward zero. *)
Definition Rtrunc (x : R) : Z :=
  if Rle_dec 0 x then Zfloor x else Zceil x.

Definition long (r : nat) (X : tensor R r) : tensor Z r := tmap Rtrunc r X.

(** [.float()]: entries are already real. *)
Definition float (r : nat) (X : tensor R r) : tensor R r := X.

(** [torch.cat(ts, dim=-1)]: the operands must agree on every axis but the
    last; otherwise [RuntimeError]. *)
Fixpoint zipM {A : Type} (f : A -> A -> result A) (a b : list A) : result (list A) :=
  match a, b with
  | [], [] => Ok []
  | x :: a', y :: b' => z <- f x y ;; zs <- zipM f a' b' ;; Ok (z :: zs)
  | _, _ => Raise RuntimeError
  end.

Fixpoint cat_last (r : nat) : tensor R (S r) -> tensor R (S r) -> result (tensor R (S r)) :=
  match r return tensor R (S r) -> tensor R (S r) -> result (tensor R (S r)) with
  | O => fun a b => Ok (a ++ b)
  | S r' => fun a b => zipM (cat_last r') a b
  end.

Fixpoint torch_cat (r : nat) (ts : list (tensor R (S r))) : result (tensor R (S r)) :=
  match ts with
  | [] => Raise RuntimeError
  | t :: ts' =>
      match ts' with
      | [] => Ok t
      | _ :: _ => c <- torch_cat r ts' ;; cat_last r t c
      end
  end.

(** ** Parameter store *)

(** A parameter block is addressed by its identifier and read at a row and
    a column; one-dimensional blocks (biases) are read at column 0. *)
Definition pid := nat.
Bind Scope nat_scope with pid.
Definition weights := pid -> nat -> nat -> R.

(** Construction threads the next unused identifier. *)
Definition M (A : Type) : Type := pid -> result (A * pid).

Definition ret {A : Type} (a : A) : M A := fun s => Ok (a, s).

Definition bindM {A B : Type} (c : M A) (k : A -> M B) : M B :=
  fun s => match c s with
           | Ok (a, s') => k a s'
           | Raise e => Raise e
           end.

Definition raise {A : Type} (e : exn) : M A := fun _ => Raise e.

Definition alloc : M pid := fun s => Ok (s, S s).

Declare Scope ctor_scope.
Delimit Scope ctor_scope with ctor.
Notation "x <~ c ;; k" := (bindM c (fun x => k))
  (at level 61, c at next level, right associativity) : ctor_scope.

(** ** Layers *)

(** *** nn.Embedding *)

Record Embedding : Type := {
  num_embeddings : nat;
  embedding_dim : nat;
  emb_weight : pid
}.

(** [nn.Embedding(V, D)]: a table of [V] rows and [D] columns. *)
Definition nn_Embedding (V D : nat) : M Embedding :=
  (p <~ alloc ;;
   ret {| num_embeddings := V; embedding_dim := D; emb_weight := p |})%ctor.

(** Row [z] of the table. *)
Definition embedding_row (w : weights) (e : Embedding) (z : Z) : list R :=
  map (w (emb_weight e) (Z.to_nat z)) (seq 0 (embedding_dim e)).

(** The weight of the table has no entry: no row or no column. *)
Definition weight_empty (e : Embedding) : bool :=
  ((num_embeddings e =? 0) || (embedding_dim e =? 0))%nat.

(** The exception of an index outside [0, num_embeddings): the row
    selection raises [IndexError] on a weight that has entries and
    [RuntimeError] on one that has none. *)
Definition lookup_error (e : Embedding) : exn :=
  if weight_empty e then RuntimeError else IndexError.

(** An index outside [0, num_embeddings) raises; negative indices are not
    wrapped around to the end of the table. *)
Definition embedding_lookup (w : weights) (e : Embedding) (z : Z) : result (list R) :=
  if ((0 <=? z)%Z && (z <? Z.of_nat (num_embeddings e))%Z)%bool
  then Ok (embedding_row w e z)
  else Raise (lookup_error e).

Fixpoint Embedding_forward (w : weights) (e : Embedding) (r : nat)
  : tensor Z r -> result (tensor R (S r)) :=
  match r return tensor Z r -> result (tensor R (S r)) with
  | O => embedding_lookup w e
  | S r' => mapM (Embedding_forward w e r')
  end.

(** *** Vector arithmetic over parameter blocks *)

Local Open Scope R_scope.

Fixpoint dot_from (row : nat -> R) (i : nat) (x : list R) : R :=
  match x with
  | [] => 0
  | a :: x' => row i * a + dot_from row (S i) x'
  end.

Definition dot (row : nat -> R) (x : list R) : R := dot_from row 0 x.

Definition sigmoid (x : R) : R := 1 / (1 + exp (- x)).

(** *** nn.Dropout and the random draws *)

(** One call of [forward] draws a mask for the dropout after the linear
    layer and one for each boundary between stacked recurrent layers;
    [true] means the entry is zeroed. *)
Record draws : Type := {
  lstm_mask : nat -> nat -> nat -> nat -> bool;
  linear_mask : nat -> nat -> nat -> bool
}.

(** Dropout is the identity outside training and for [p = 0]; for [p = 1]
    it zeroes its input; otherwise kept entries are scaled by [1/(1-p)]. *)
Definition dropout_elem (p : R) (training drop : bool) (x : R) : R :=
  if negb training then x
  else if Req_dec_T p 0 then x
  else if Req_dec_T p 1 then 0
  else if drop then 0 else x / (1 - p).

Definition dropout3 (p : R) (training : bool) (mask : nat -> nat -> nat -> bool)
  (X : tensor R 3) : tensor R 3 :=
  imap (fun b s =>
          imap (fun t v =>
                  imap (fun j x => dropout_elem p training (mask b t j) x) v) s) X.

(** A dropout rate must lie in [0,1]; the constructor raises [ValueError]
    otherwise. *)
Definition prob_ok (p : R) : bool :=
  if Rle_dec 0 p then (if Rle_dec p 1 then true else false) else false.

Record Dropout : Type := { p : R }.

Definition nn_Dropout (q : R) : M Dropout :=
  if prob_ok q then ret {| p := q |} else raise ValueError.

Definition Dropout_forward (d : Dropout) (training : bool)
  (mask : nat -> nat -> nat -> bool) (X : tensor R 3) : tensor R 3 :=
  dropout3 (p d) training mask X.

(** *** nn.Sigmoid *)

Definition Sigmoid_forward (X : tensor R 3) : tensor R 3 := tmap sigmoid 3 X.

(** *** nn.Linear *)

Record Linear : Type := {
  in_features : nat;
  out_features : nat;
  lin_weight : pid;
  lin_bias : pid
}.

(** The constructor allocates a weight of [o] rows and [i] columns and a
    bias of [o] entries; a negative extent cannot be allocated
    ([RuntimeError]). *)
Definition nn_Linear (i o : Z) : M Linear :=
  if ((i <? 0) || (o <? 0))%Z%bool then raise RuntimeError
  else (wt <~ alloc ;; b <~ alloc ;;
        ret {| in_features := Z.to_nat i; out_features := Z.to_nat o;
               lin_weight := wt; lin_bias := b |})%ctor.

(** Every vector along the last axis has [n] entries. *)
Definition width_ok (n : nat) (X : tensor R 3) : bool :=
  forallb (forallb (fun v : list R => length v =? n)%nat) X.

Definition linear_vec (w : weights) (l : Linear) (h : list R) : list R :=
  map (fun j => dot (w (lin_weight l) j) h + w (lin_bias l) j O) (seq 0 (out_features l)).

(** [y = x W^T + b] on the last axis, which must be [in_features] wide. *)
Definition Linear_forward (w : weights) (l : Linear) (X : tensor R 3)
  : result (tensor R 3) :=
  if width_ok (in_features l) X
  then Ok (map (map (linear_vec w l)) X)
  else Raise RuntimeError.

(** *** nn.LSTM (batch_first, unidirectional) *)

Record LSTMLayer : Type := {
  weight_ih : pid;
  weight_hh : pid;
  bias_ih : pid;
  bias_hh : pid
}.

Record LSTM : Type := {
  input_size : nat;
  hidden_size : nat;
  lstm_layers : list LSTMLayer;
  lstm_dropout : R
}.

Fixpoint alloc_layers (n : nat) : M (list LSTMLayer) :=
  match n with
  | O => ret []
  | S n' =>
      (wi <~ alloc ;; wh <~ alloc ;; bi <~ alloc ;; bh <~ alloc ;;
       ls <~ alloc_layers n' ;;
       ret ({| weight_ih := wi; weight_hh := wh; bias_ih := bi; bias_hh := bh |} :: ls))%ctor
  end.

(** The constructor rejects a dropout rate outside [0,1] and a non-positive
    hidden size, layer count or input size, each with [ValueError]. *)
Definition nn_LSTM (isz hsz nl : Z) (dropout : R) : M LSTM :=
  if negb (prob_ok dropout) then raise ValueError
  else if (hsz <=? 0)%Z then raise ValueError
  else if (nl <=? 0)%Z then raise ValueError
  else if (isz <=? 0)%Z then raise ValueError
  else (ls <~ alloc_layers (Z.to_nat nl) ;;
        ret {| input_size := Z.to_nat isz; hidden_size := Z.to_nat hsz;
               lstm_layers := ls; lstm_dropout := dropout |})%ctor.

Definition state : Type := (list R * list R)%type.

Definition zero_state (H : nat) : state := (repeat 0 H, repeat 0 H).

(** Pre-activation [j] of the stacked gates, in the order input, forget,
    cell, output. *)
Definition gate (w : weights) (lay : LSTMLayer) (x h : list R) (j : nat) : R :=
  dot (w (weight_ih lay) j) x + w (bias_ih lay) j O
  + dot (w (weight_hh lay) j) h + w (bias_hh lay) j O.

Definition lstm_cell (w : weights) (H : nat) (lay : LSTMLayer) (x : list R) (st : state)
  : state :=
  let h := fst st in
  let c := snd st in
  let c' := map (fun j => sigmoid (gate w lay x h (H + j)) * nth j c 0
                          + sigmoid (gate w lay x h j) * tanh (gate w lay x h (2 * H + j)))
                (seq 0 H) in
  let h' := map (fun j => sigmoid (gate w lay x h (3 * H + j)) * tanh (nth j c' 0))
                (seq 0 H) in
  (h', c').

(** One layer over one sequence, left to right; the output at each step is
    the new hidden vector. *)
Fixpoint lstm_scan (cell : list R -> state -> state) (st : state) (xs : list (list R))
  : list (list R) :=
  match xs with
  | [] => []
  | x :: xs' => let st' := cell x st in fst st' :: lstm_scan cell st' xs'
  end.

Definition lstm_last (cell : list R -> state -> state) (st : state) (xs : list (list R))
  : state :=
  fold_left (fun s x => cell x s) xs st.

(** [hx]: the optional initial state, per layer and batch element; [None]
    stands for zeros. *)
Definition initial_state (hx : option (nat -> nat -> state)) (H l b : nat) : state :=
  match hx with
  | None => zero_state H
  | Some f => f l b
  end.

Definition lstm_layer (w : weights) (H : nat) (hx : option (nat -> nat -> state))
  (l : nat) (lay : LSTMLayer) (X : tensor R 3) : tensor R 3 :=
  imap (fun b xs => lstm_scan (lstm_cell w H lay) (initial_state hx H l b) xs) X.

(** Stacked layers; dropout sits on the output of every layer but the
    last. *)
Fixpoint lstm_stack (w : weights) (H : nat) (q : R) (training : bool) (g : draws)
  (hx : option (nat -> nat -> state)) (l : nat) (ls : list LSTMLayer) (X : tensor R 3)
  : tensor R 3 :=
  match ls with
  | [] => X
  | lay :: ls' =>
      let Y := lstm_layer w H hx l lay X in
      match ls' with
      | [] => Y
      | _ :: _ => lstm_stack w H q training g hx (S l) ls'
                    (dropout3 q training (lstm_mask g l) Y)
      end
  end.

Fixpoint lstm_final (w : weights) (H : nat) (q : R) (training : bool) (g : draws)
  (hx : option (nat -> nat -> state)) (l : nat) (ls : list LSTMLayer) (X : tensor R 3)
  : list (list state) :=
  match ls with
  | [] => []
  | lay :: ls' =>
      imap (fun b xs => lstm_last (lstm_cell w H lay) (initial_state hx H l b) xs) X
      :: lstm_final w H q training g hx (S l) ls'
           (dropout3 q training (lstm_mask g l) (lstm_layer w H hx l lay X))
  end.

(** No sequence of the batch is empty. *)
Definition steps_ok (X : tensor R 3) : bool :=
  forallb (fun s : list (list R) => negb (length s =? 0)%nat) X.

(** The call rejects an input that is not of rank 3 ([ValueError]; an
    unbatched rank-2 input never reaches it from [forward]), then an input
    whose last axis is not [input_size] wide and an input without time steps
    (both [RuntimeError]), and returns the output sequence together with the
    final states of every layer. *)
Definition LSTM_forward (w : weights) (m : LSTM) (training : bool) (g : draws)
  (hx : option (nat -> nat -> state)) (r : nat) (x : tensor R r)
  : result (tensor R 3 * list (list state)) :=
  match r return tensor R r -> result (tensor R 3 * list (list state)) with
  | 3%nat => fun x =>
      if width_ok (input_size m) x && steps_ok x
      then Ok (lstm_stack w (hidden_size m) (lstm_dropout m) training g hx 0 (lstm_layers m) x,
               lstm_final w (hidden_size m) (lstm_dropout m) training g hx 0 (lstm_layers m) x)
      else Raise RuntimeError
  | _ => fun _ => Raise ValueError
  end x.

(** ** Module registration and [parameters()] *)

(** The submodules an [nn.Module] can hold here.  [M_ModuleList] is
    [nn.ModuleList]: a registered container of submodules. *)
#[warnings="-register-all"]
Inductive Module : Type :=
| M_Embedding (e : Embedding)
| M_LSTM (l : LSTM)
| M_Linear (l : Linear)
| M_Dropout (d : Dropout)
| M_Sigmoid
| M_ModuleList (ms : list Module).

Definition layer_parameters (lay : LSTMLayer) : list pid :=
  [weight_ih lay; weight_hh lay; bias_ih lay; bias_hh lay].

(** Parameters of a module and of everything registered below it, in
    registration order, repetitions included. *)
Fixpoint module_parameters (m : Module) : list pid :=
  match m with
  | M_Embedding e => [emb_weight e]
  | M_LSTM l => flat_map layer_parameters (lstm_layers l)
  | M_Linear l => [lin_weight l; lin_bias l]
  | M_Dropout _ => []
  | M_Sigmoid => []
  | M_ModuleList ms =>
      (fix go (ms : list Module) : list pid :=
         match ms with
         | [] => []
         | m' :: ms' => module_parameters m' ++ go ms'
         end) ms
  end.

(** [parameters()] yields each block once (first occurrence), by identity. *)
Fixpoint dedup (seen : list pid) (l : list pid) : list pid :=
  match l with
  | [] => []
  | x :: l' => if in_dec Nat.eq_dec x seen then dedup seen l'
               else x :: dedup (x :: seen) l'
  end.

(** ** The DRSA model *)

(** Attributes of a [DRSA] object.  [embeddings] is a plain Python list;
    [params_to_train] is [None] when the attribute was never assigned (the
    class of [notebooks/01_model.ipynb]).  [training] is the mode set by
    [train()]/[eval()], which reaches [lstm] and [linear_dropout] because both
    are registered submodules. *)
Record DRSA : Type := {
  n_features : Z;
  n_layers : Z;
  hidden_dim : Z;
  embeddings : list Embedding;
  lstm : LSTM;
  fc : Linear;
  linear_dropout : Dropout;
  params_to_train : option Module;
  training : bool
}.

(** Assigning an attribute registers it as a submodule exactly when the
    value is itself a module; a list of modules is not one. *)
Definition named_children (self : DRSA) : list (string * Module) :=
  [("lstm"%string, M_LSTM (lstm self));
   ("fc"%string, M_Linear (fc self));
   ("linear_dropout"%string, M_Dropout (linear_dropout self));
   ("sigmoid"%string, M_Sigmoid)]
  ++ match params_to_train self with
     | Some ml => [("params_to_train"%string, ml)]
     | None => []
     end.

Definition parameters (self : DRSA) : list pid :=
  dedup [] (flat_map (fun c => module_parameters (snd c)) (named_children self)).

Definition sum_Z (l : list Z) : Z := fold_right Z.add 0%Z l.

(** The width handed to [nn.LSTM]:
    [sum([emb.embedding_dim for emb in embeddings]) + n_features - len(embeddings)]. *)
Definition encoder_width (n_features : Z) (embeddings : list Embedding) : Z :=
  (sum_Z (map (fun emb => Z.of_nat (embedding_dim emb)) embeddings)
   + n_features - Z.of_nat (length embeddings))%Z.

(** [DRSA.__init__] of [src/unnamed/part_000]. *)
Definition DRSA_init (n_features hidden_dim n_layers : Z) (embeddings : list Embedding)
  (output_size : Z) (LSTM_dropout Linear_dropout : R) : M DRSA :=
  (lstm <~ nn_LSTM (encoder_width n_features embeddings) hidden_dim n_layers LSTM_dropout ;;
   fc <~ nn_Linear hidden_dim output_size ;;
   linear_dropout <~ nn_Dropout Linear_dropout ;;
   ret {| n_features := n_features;
          n_layers := n_layers;
          hidden_dim := hidden_dim;
          embeddings := embeddings;
          lstm := lstm;
          fc := fc;
          linear_dropout := linear_dropout;
          params_to_train :=
            Some (M_ModuleList (map M_Embedding embeddings ++ [M_LSTM lstm; M_Linear fc]));
          training := true |})%ctor.

(** [DRSA.__init__] of [src/notebooks/01_model.ipynb]: the same statements
    without the assignment of [params_to_train]. *)
Definition DRSA_init_01 (n_features hidden_dim n_layers : Z) (embeddings : list Embedding)
  (output_size : Z) (LSTM_dropout Linear_dropout : R) : M DRSA :=
  (lstm <~ nn_LSTM (encoder_width n_features embeddings) hidden_dim n_layers LSTM_dropout ;;
   fc <~ nn_Linear hidden_dim output_size ;;
   linear_dropout <~ nn_Dropout Linear_dropout ;;
   ret {| n_features := n_features;
          n_layers := n_layers;
          hidden_dim := hidden_dim;
          embeddings := embeddings;
          lstm := lstm;
          fc := fc;
          linear_dropout := linear_dropout;
          params_to_train := None;
          training := true |})%ctor.

(** [train(mode)] and [eval()]. *)
Definition DRSA_train (mode : bool) (self : DRSA) : DRSA :=
  {| n_features := n_features self;
     n_layers := n_layers self;
     hidden_dim := hidden_dim self;
     embeddings := embeddings self;
     lstm := lstm self;
     fc := fc self;
     linear_dropout := linear_dropout self;
     params_to_train := params_to_train self;
     training := mode |}.

Definition DRSA_eval (self : DRSA) : DRSA := DRSA_train false self.

(** The fused features of [forward]: the embedding lookups of columns
    [0 .. k-1], in table order, then the remaining columns. *)
Definition fuse (w : weights) (self : DRSA) (r' : nat) (X : tensor R (3 + r'))
  : result (tensor R (3 + r')) :=
  all_embeddings <-
    mapM_enum (fun i emb =>
                 Xi <- select2 i X ;;
                 Embedding_forward w emb (2 + r') (long (2 + r') Xi))
              0 (embeddings self) ;;
  let other_features := narrow2 (length (embeddings self)) X in
  torch_cat (2 + r') (all_embeddings ++ [float (3 + r') other_features]).

(** [DRSA.forward] (identical in both sources).  Indexing a tensor of rank
    below 3 with three subscripts raises [IndexError]. *)
Definition forward (w : weights) (self : DRSA) (g : draws) (r : nat) (X : tensor R r)
  : result (tensor R 3) :=
  match r return tensor R r -> result (tensor R 3) with
  | S (S (S r')) => fun X =>
      all_features <- fuse w self r' X ;;
      out_hidden <- LSTM_forward w (lstm self) (training self) g None (3 + r')
                      (float (3 + r') all_features) ;;
      let out := fst out_hidden in
      out <- Linear_forward w (fc self) out ;;
      Ok (Sigmoid_forward
            (Dropout_forward (linear_dropout self) (training self) (linear_mask g) out))
  | _ => fun _ => Raise IndexError
  end X.

(** ** Calls and training steps *)

(** One call of the model in a program that keeps the model object between
    calls: [forward] assigns only local variables ([all_embeddings],
    [other_features], [all_features], [out], [hidden]), so the object that
    the next call sees is the one this call received. *)
Definition DRSA_call (w : weights) (g : draws) (r : nat) (X : tensor R r) (self : DRSA)
  : result (tensor R 3) * DRSA :=
  (forward w self g r X, self).

(** An optimizer built from a collection of parameters writes new values
    into exactly the blocks of that collection. *)
Definition optimizer_step (params : list pid) (upd w : weights) : weights :=
  fun q => if in_dec Nat.eq_dec q params then upd q else w q.

(** * Vocabulary of the statements *)

(** A computation that can fail only with the exception [e]. *)
Definition raises_only {A : Type} (e : exn) (c : result A) : Prop :=
  forall e', c = Raise e' -> e' = e.

(** ** Construction *)

(** The arguments both constructors accept. *)
Definition accepted (n h L : Z) (embs : list Embedding) (o : Z) (qL qD : R) : Prop :=
  0 <= qL <= 1 /\ (0 < h)%Z /\ (0 < L)%Z /\ (0 < encoder_width n embs)%Z
  /\ (0 <= o)%Z /\ 0 <= qD <= 1.

(** What they build from accepted arguments. *)
Record built (n h L : Z) (embs : list Embedding) (o : Z) (qL qD : R) (m : DRSA) : Prop := {
  built_n_features : n_features m = n;
  built_embeddings : embeddings m = embs;
  built_input_size : input_size (lstm m) = Z.to_nat (encoder_width n embs);
  built_hidden_size : hidden_size (lstm m) = Z.to_nat h;
  built_layers : length (lstm_layers (lstm m)) = Z.to_nat L;
  built_lstm_dropout : lstm_dropout (lstm m) = qL;
  built_in_features : in_features (fc m) = Z.to_nat h;
  built_out_features : out_features (fc m) = Z.to_nat o;
  built_p : p (linear_dropout m) = qD;
  built_training : training m = true
}.

(** [m] is a freshly constructed model, by either source's [__init__]. *)
Definition constructed (n h L : Z) (embs : list Embedding) (o : Z) (qL qD : R)
  (s : pid) (m : DRSA) (s' : pid) : Prop :=
  DRSA_init n h L embs o qL qD s = Ok (m, s')
  \/ DRSA_init_01 n h L embs o qL qD s = Ok (m, s').

(** What construction establishes between the encoder and the head. *)
Definition wired (self : DRSA) : Prop :=
  in_features (fc self) = hidden_size (lstm self) /\ lstm_layers (lstm self) <> [].

(** ** Inputs *)

(** Extents of a rank-3 tensor, spelled out. *)
Definition dims3 {A : Type} (B T F : nat) (X : list (list (list A))) : Prop :=
  length X = B /\ Forall (fun s => length s = T /\ Forall (fun v => length v = F) s) X.

(** Every categorical column that is present in the feature vector [v]
    holds a value whose truncation is a row of its embedding table. *)
Definition codes_ok (embs : list Embedding) (v : list R) : Prop :=
  forall i e x, nth_error embs i = Some e -> nth_error v i = Some x ->
                (0 <= Rtrunc x < Z.of_nat (num_embeddings e))%Z.

Definition in_vocab (embs : list Embedding) (X : tensor R 3) : Prop :=
  Forall (Forall (codes_ok embs)) X.

(** The [k] categorical columns exist among the [F] columns of the input
    and hold in-vocabulary codes. *)
Definition categorical_ok (embs : list Embedding) (F : nat) (X : tensor R 3) : Prop :=
  (length embs <= F)%nat /\ in_vocab embs X.

(** Every table has at least one row and one column. *)
Definition tables_nonempty (embs : list Embedding) : Prop :=
  Forall (fun e => weight_empty e = false) embs.

(** A computation that can fail only with an exception satisfying [P]. *)
Definition raises_in {A : Type} (P : exn -> Prop) (c : result A) : Prop :=
  forall e, c = Raise e -> P e.

(** The exceptions of the embedding lookups. *)
Definition lookup_exn (e : exn) : Prop := e = IndexError \/ e = RuntimeError.

(** The categorical column [i] is present in [v] and in range for [e]. *)
Definition code_at (e : Embedding) (i : nat) (v : list R) : Prop :=
  exists x, nth_error v i = Some x /\ (0 <= Rtrunc x < Z.of_nat (num_embeddings e))%Z.

(** Every column [i + j] of [v] is present and in range for the [j]-th
    table of [embs]. *)
Definition codes_from (i : nat) (embs : list Embedding) (v : list R) : Prop :=
  forall j e, nth_error embs j = Some e -> code_at e (i + j) v.

(** [X[:, :n, :] = X'[:, :n, :]]: the two tensors agree on the first [n]
    time steps of every batch element. *)
Definition agree_upto (n : nat) (X X' : tensor R 3) : Prop :=
  map (firstn n (A:=list R)) X = map (firstn n (A:=list R)) X'.

(** ** The stages of [forward] *)

(** The fused feature vector of one time step, written directly. *)
Definition lookups_from (w : weights) (i : nat) (embs : list Embedding) (v : list R)
  : list R :=
  concat (imap_from (fun i e => embedding_row w e (Rtrunc (nth i v 0))) i embs).

Definition fuse_vec (w : weights) (embs : list Embedding) (v : list R) : list R :=
  lookups_from w 0 embs v ++ skipn (length embs) v.

(** Width of a fused feature vector for [F] input columns. *)
Definition fused_width (embs : list Embedding) (F : nat) : nat :=
  list_sum (map embedding_dim embs) + (F - length embs).

(** The encoder and the emission head of [forward], as functions of the
    fused features. *)
Definition encode (w : weights) (self : DRSA) (g : draws)
  (hx : option (nat -> nat -> state)) (U : tensor R 3) : tensor R 3 :=
  lstm_stack w (hidden_size (lstm self)) (lstm_dropout (lstm self)) (training self) g hx 0
    (lstm_layers (lstm self)) U.

Definition emit (w : weights) (self : DRSA) (g : draws) (Hs : tensor R 3) : tensor R 3 :=
  Sigmoid_forward
    (Dropout_forward (linear_dropout self) (training self) (linear_mask g)
       (map (map (linear_vec w (fc self))) Hs)).

(** Dropout does nothing: the model is in evaluation mode, or both rates
    are 0 (the defaults of the constructor). *)
Definition dropout_off (self : DRSA) : Prop :=
  training self = false
  \/ (lstm_dropout (lstm self) = 0 /\ p (linear_dropout self) = 0).

(** The all-zero initial state, given explicitly as [hx]. *)
Definition zero_hx (H : nat) : option (nat -> nat -> state) :=
  Some (fun _ _ => (repeat 0 H, repeat 0 H)).

(** Every entry lies strictly between 0 and 1. *)
Definition in_unit_interval (X : tensor R 3) : Prop :=
  Forall (Forall (Forall (fun y => 0 < y < 1))) X.

(** ** Parameters *)

(** The parameter blocks the model computes with: the embedding tables,
    the recurrent weights and biases, the linear weight and bias. *)
Definition trainable_blocks (self : DRSA) : list pid :=
  map emb_weight (embeddings self)
  ++ flat_map layer_parameters (lstm_layers (lstm self))
  ++ [lin_weight (fc self); lin_bias (fc self)].

(** Two stores that agree on the blocks [ps]. *)
Definition agree_on (ps : list pid) (w w' : weights) : Prop :=
  forall q i j, In q ps -> w q i j = w' q i j.

(** * Worked instances *)

(** ** The scenario of [part_000]

    One categorical column with ten codes embedded in five dimensions, ten
    continuous columns, two hidden units, one layer, no dropout.  The table
    is created first and owns parameter block 0. *)

Definition ex_emb : Embedding :=
  {| num_embeddings := 10%nat; embedding_dim := 5%nat; emb_weight := 0%nat |}.

(** The model that [DRSA_init 11 2 1 [ex_emb] 1 0 0] builds when the next
    free parameter identifier is 1. *)
Definition ex_model : DRSA :=
  {| n_features := 11; n_layers := 1; hidden_dim := 2;
     embeddings := [ex_emb];
     lstm := {| input_size := 15; hidden_size := 2;
                lstm_layers := [{| weight_ih := 1; weight_hh := 2;
                                   bias_ih := 3; bias_hh := 4 |}];
                lstm_dropout := 0 |};
     fc := {| in_features := 2; out_features := 1; lin_weight := 5; lin_bias := 6 |};
     linear_dropout := {| p := 0 |};
     params_to_train :=
       Some (M_ModuleList
               [M_Embedding ex_emb;
                M_LSTM {| input_size := 15; hidden_size := 2;
                          lstm_layers := [{| weight_ih := 1; weight_hh := 2;
                                             bias_ih := 3; bias_hh := 4 |}];
                          lstm_dropout := 0 |};
                M_Linear {| in_features := 2; out_features := 1;
                            lin_weight := 5; lin_bias := 6 |}]);
     training := true |}.

(** The model that [DRSA_init_01], the constructor of
    [notebooks/01_model.ipynb], builds from the same arguments: [ex_model]
    without [params_to_train]. *)
Definition ex_model_01 : DRSA :=
  {| n_features := 11; n_layers := 1; hidden_dim := 2;
     embeddings := [ex_emb];
     lstm := lstm ex_model;
     fc := fc ex_model;
     linear_dropout := linear_dropout ex_model;
     params_to_train := None;
     training := true |}.

(** A store with every parameter zero, and draws that zero nothing. *)
Definition ex_w : weights := fun _ _ _ => 0.

Definition ex_g : draws :=
  {| lstm_mask := fun _ _ _ _ => false; linear_mask := fun _ _ _ => false |}.

(** One sequence of two steps with category 3, then category 4. *)
Definition ex_X : tensor R 3 :=
  [[ [3; 0; 0; 0; 0; 0; 0; 0; 0; 0; 0];
     [4; 1; 0; 0; 0; 0; 0; 0; 0; 0; 0] ]].

(** [ex_X] with its second time step replaced. *)
Definition ex_X' : tensor R 3 :=
  [[ [3; 0; 0; 0; 0; 0; 0; 0; 0; 0; 0];
     [7; 2; 2; 2; 2; 2; 2; 2; 2; 2; 2] ]].

(** [ex_X] with a negative code at its second time step. *)
Definition ex_X_bad : tensor R 3 :=
  [[ [3; 0; 0; 0; 0; 0; 0; 0; 0; 0; 0];
     [-1; 0; 0; 0; 0; 0; 0; 0; 0; 0; 0] ]].

(** ** A table without rows

    [nn.Embedding(0, 5)], created first. *)
Definition empty_emb : Embedding :=
  {| num_embeddings := 0%nat; embedding_dim := 5%nat; emb_weight := 0%nat |}.

(** ** Two categorical columns *)

Definition sh_emb0 : Embedding :=
  {| num_embeddings := 3%nat; embedding_dim := 1%nat; emb_weight := 0%nat |}.

Definition sh_emb1 : Embedding :=
  {| num_embeddings := 3%nat; embedding_dim := 1%nat; emb_weight := 1%nat |}.

(** ** The pitcher and team tables of [notebooks/01_model.ipynb] *)

Definition pitcher_embeddings : Embedding :=
  {| num_embeddings := 240%nat; embedding_dim := 2%nat; emb_weight := 0%nat |}.

Definition team_embeddings : Embedding :=
  {| num_embeddings := 31%nat; embedding_dim := 2%nat; emb_weight := 1%nat |}.

Definition ptp_embeddings : list Embedding := [pitcher_embeddings; team_embeddings].

(** ** A model with dropout after the linear layer

    No categorical column, one feature, one hidden unit, dropout rate 1/2
    after the linear layer: the model that [DRSA_init 1 1 1 [] 1 0 (1/2)]
    builds when the next free parameter identifier is 0, in its initial
    (training) mode. *)
Definition cx_model : DRSA :=
  {| n_features := 1; n_layers := 1; hidden_dim := 1;
     embeddings := [];
     lstm := {| input_size := 1; hidden_size := 1;
                lstm_layers := [{| weight_ih := 0; weight_hh := 1;
                                   bias_ih := 2; bias_hh := 3 |}];
                lstm_dropout := 0 |};
     fc := {| in_features := 1; out_features := 1; lin_weight := 4; lin_bias := 5 |};
     linear_dropout := {| p := 1 / 2 |};
     params_to_train :=
       Some (M_ModuleList
               [M_LSTM {| input_size := 1; hidden_size := 1;
                          lstm_layers := [{| weight_ih := 0; weight_hh := 1;
                                             bias_ih := 2; bias_hh := 3 |}];
                          lstm_dropout := 0 |};
                M_Linear {| in_features := 1; out_features := 1;
                            lin_weight := 4; lin_bias := 5 |}]);
     training := true |}.

(** All parameters zero except the bias of the linear layer, which is 1. *)
Definition cx_w : weights := fun q _ _ => if (q =? 5)%nat then 1 else 0.

(** Draws that zero every entry after the linear layer. *)
Definition cx_g : draws :=
  {| lstm_mask := fun _ _ _ _ => false; linear_mask := fun _ _ _ => true |}.

(** * Further vocabulary *)

(** Every categorical column of every feature vector of [X] is present and
    holds a code of its table. *)
Definition all_codes_valid (embs : list Embedding) (X : tensor R 3) : Prop :=
  Forall (Forall (codes_from 0 embs)) X.

(** The feature vectors [v] and [v'] have the same length, the same
    continuous columns, and categorical columns ([0 .. k-1]) with the same
    truncations: they differ at most in the fractional parts of their
    categorical codes. *)
Definition same_codes (k : nat) (v v' : list R) : Prop :=
  length v = length v'
  /\ (forall i, (i < k)%nat -> Rtrunc (nth i v 0) = Rtrunc (nth i v' 0))
  /\ skipn k v = skipn k v'.

(** [ex_X] with fractional parts added to its categorical codes. *)
Definition ex_X_frac : tensor R 3 :=
  [[ [7 / 2; 0; 0; 0; 0; 0; 0; 0; 0; 0; 0];
     [9 / 2; 1; 0; 0; 0; 0; 0; 0; 0; 0; 0] ]].

(** The sum of the absolute values of row [j] of the weight of a linear
    layer. *)
Definition row_l1 (w : weights) (l : Linear) (j : nat) : R :=
  fold_right Rplus 0 (map (fun i => Rabs (w (lin_weight l) j i)) (seq 0 (in_features l))).

(** Every entry lies strictly between -1 and 1. *)
Definition in_open_ball (X : tensor R 3) : Prop :=
  Forall (Forall (Forall (fun h => -1 < h < 1))) X.

(** * The training cell of [part_000]

    The cell draws a random input, builds a model for it and trains the
    model.  The losses it calls ([drsa.functions]) and the update rule of
    the optimizer are outside the two source files; what is embedded here is
    the synthesis of the input and the construction of the model. *)

(** [torch.ones(B, T, F)]. *)
Definition torch_ones (B T F : nat) : tensor R 3 := repeat (repeat (repeat 1 F) T) B.

(** Elementwise product of two tensors of the same rank with broadcasting:
    an axis of extent 1 is stretched to the extent of the other operand;
    extents that differ otherwise raise [RuntimeError]. *)
Fixpoint bcast_mul (r : nat) : tensor R r -> tensor R r -> result (tensor R r) :=
  match r return tensor R r -> tensor R r -> result (tensor R r) with
  | O => fun x y => Ok (x * y)
  | S r' => fun a c =>
      match a, c with
      | [x], _ => mapM (fun y => bcast_mul r' x y) c
      | _, [y] => mapM (fun x => bcast_mul r' x y) a
      | _, _ => zipM (bcast_mul r') a c
      end
  end.

(** [torch.mul(a, c)] for a float tensor [a] and an integer tensor [c],
    both of rank 3: [c] is promoted to float. *)
Definition torch_mul (a : tensor R 3) (c : tensor Z 3) : result (tensor R 3) :=
  bcast_mul 3 a (tmap IZR 3 c).

(** What [torch.randint(low, high, size)] may return: a tensor of shape
    [size] with entries in [low .. high - 1]. *)
Definition randint_ok (low high : Z) (size : list nat) (c : tensor Z 3) : Prop :=
  has_shape size 3 c /\ Forall (Forall (Forall (fun z => (low <= z < high)%Z))) c.

(** The input [X] of the cell, from the tensor [idx] that [torch.randint]
    returned and the tensor [data] that [torch.randn] returned. *)
Definition cell_input (batch_size seq_len : nat) (idx : tensor Z 3) (data : tensor R 3)
  : result (tensor R 3) :=
  embedding_idx <- torch_mul (torch_ones batch_size seq_len 1) idx ;;
  torch_cat 2 [embedding_idx; data].

(** The model of the cell:
    [DRSA(n_features=n_features + 1, hidden_dim=2, n_layers=1,
          embeddings=[torch.nn.Embedding(n_embeddings, embedding_size)])]. *)
Definition cell_model (n_features n_embeddings embedding_size : nat) : M DRSA :=
  (embeddings <~ nn_Embedding n_embeddings embedding_size ;;
   DRSA_init (Z.of_nat n_features + 1) 2 1 [embeddings] 1 0 0)%ctor.

(** Row [i] of block [q] is the row of an embedding table that some
    categorical code of [X] addresses. *)
Definition row_addressed (embs : list Embedding) (X : tensor R 3) (q : pid) (i : nat)
  : Prop :=
  exists k e s v,
    nth_error embs k = Some e /\ emb_weight e = q /\ In s X /\ In v s
    /\ Z.to_nat (Rtrunc (nth k v 0)) = i.

(** [ex_w] with row 9 of the embedding table (block 0) set to 1. *)
Definition ex_w9 : weights :=
  fun q i _ => if ((q =? 0) && (i =? 9))%nat then 1 else 0.

(** The exception a computation raises, if any. *)
Definition exception_of {A : Type} (c : result A) : option exn :=
  match c with
  | Ok _ => None
  | Raise e => Some e
  end.

(** * Properties *)

(** ** Construction *)

Lemma prob_ok_spec (q : R) : prob_ok q = true <-> 0 <= q <= 1.
Proof.
  unfold prob_ok.
  destruct (Rle_dec 0 q) as [H0 | H0]; [destruct (Rle_dec q 1) as [H1 | H1] |];
    split; intros H; try discriminate; try reflexivity; try lra.
Qed.

Lemma alloc_layers_ok (n : nat) (s : pid) :
  exists ls, alloc_layers n s = Ok (ls, (s + 4 * n)%nat) /\ length ls = n.
Proof.
  revert s.
  induction n as [| n IH]; intros s.
  - exists []. simpl. unfold ret. rewrite Nat.add_0_r. auto.
  - destruct (IH (S (S (S (S s))))) as [ls [Hls Hlen]].
    eexists. split.
    + simpl. unfold bindM, alloc. rewrite Hls. unfold ret.
      do 2 f_equal. lia.
    + simpl. now rewrite Hlen.
Qed.

Lemma nn_LSTM_accepts isz hsz nl q s :
  0 <= q <= 1 -> (0 < hsz)%Z -> (0 < nl)%Z -> (0 < isz)%Z ->
  exists ls,
    nn_LSTM isz hsz nl q s
    = Ok ({| input_size := Z.to_nat isz; hidden_size := Z.to_nat hsz;
             lstm_layers := ls; lstm_dropout := q |}, (s + 4 * Z.to_nat nl)%nat)
    /\ length ls = Z.to_nat nl.
Proof.
  intros Hq Hh HL Hw.
  destruct (alloc_layers_ok (Z.to_nat nl) s) as [ls [Hls Hlen]].
  exists ls. split; [| exact Hlen].
  unfold nn_LSTM.
  apply prob_ok_spec in Hq. rewrite Hq. simpl.
  destruct (Z.leb_spec hsz 0); [lia |].
  destruct (Z.leb_spec nl 0); [lia |].
  destruct (Z.leb_spec isz 0); [lia |].
  unfold bindM. rewrite Hls. reflexivity.
Qed.

Lemma nn_LSTM_inv isz hsz nl q s l s' :
  nn_LSTM isz hsz nl q s = Ok (l, s') ->
  0 <= q <= 1 /\ (0 < hsz)%Z /\ (0 < nl)%Z /\ (0 < isz)%Z.
Proof.
  unfold nn_LSTM, raise.
  destruct (prob_ok q) eqn:Hq; simpl; [| discriminate].
  destruct (Z.leb_spec hsz 0); [discriminate |].
  destruct (Z.leb_spec nl 0); [discriminate |].
  destruct (Z.leb_spec isz 0); [discriminate |].
  intros _. apply prob_ok_spec in Hq. auto.
Qed.

Lemma nn_Linear_accepts i o s :
  (0 <= i)%Z -> (0 <= o)%Z ->
  nn_Linear i o s
  = Ok ({| in_features := Z.to_nat i; out_features := Z.to_nat o;
           lin_weight := s; lin_bias := S s |}, S (S s)).
Proof.
  intros Hi Ho. unfold nn_Linear.
  destruct (Z.ltb_spec i 0); [lia |].
  destruct (Z.ltb_spec o 0); [lia |].
  reflexivity.
Qed.

Lemma nn_Linear_inv i o s l s' :
  nn_Linear i o s = Ok (l, s') -> (0 <= i)%Z /\ (0 <= o)%Z.
Proof.
  unfold nn_Linear, raise.
  destruct (Z.ltb_spec i 0); [discriminate |].
  destruct (Z.ltb_spec o 0); [discriminate |].
  intros _. lia.
Qed.

Lemma nn_Dropout_accepts q s :
  0 <= q <= 1 -> nn_Dropout q s = Ok ({| p := q |}, s).
Proof.
  intros Hq. unfold nn_Dropout. apply prob_ok_spec in Hq. now rewrite Hq.
Qed.

Lemma nn_Dropout_inv q s d s' :
  nn_Dropout q s = Ok (d, s') -> 0 <= q <= 1.
Proof.
  unfold nn_Dropout, raise.
  destruct (prob_ok q) eqn:Hq; [| discriminate].
  intros _. now apply prob_ok_spec.
Qed.

Lemma DRSA_init_accepts [n h L embs o qL qD] s :
  accepted n h L embs o qL qD ->
  exists m s', DRSA_init n h L embs o qL qD s = Ok (m, s')
               /\ built n h L embs o qL qD m
               /\ params_to_train m
                  = Some (M_ModuleList (map M_Embedding embs ++ [M_LSTM (lstm m); M_Linear (fc m)])).
Proof.
  intros (HqL & Hh & HL & Hw & Ho & HqD).
  destruct (nn_LSTM_accepts _ _ _ _ s HqL Hh HL Hw) as [ls [Hl Hlen]].
  unfold DRSA_init, bindM.
  rewrite Hl, nn_Linear_accepts by lia.
  rewrite nn_Dropout_accepts by exact HqD.
  eexists. eexists. split; [reflexivity |].
  split; [constructor; simpl; auto | reflexivity].
Qed.

Lemma DRSA_init_inv [n h L embs o qL qD s m s'] :
  DRSA_init n h L embs o qL qD s = Ok (m, s') ->
  accepted n h L embs o qL qD /\ built n h L embs o qL qD m.
Proof.
  intros H.
  assert (Hacc : accepted n h L embs o qL qD).
  { unfold DRSA_init, bindM in H.
    destruct (nn_LSTM _ _ _ _ s) as [[l s1] | e] eqn:Hl; [| discriminate].
    destruct (nn_Linear _ _ s1) as [[f s2] | e] eqn:Hf; [| discriminate].
    destruct (nn_Dropout _ s2) as [[d s3] | e] eqn:Hd; [| discriminate].
    apply nn_LSTM_inv in Hl. apply nn_Linear_inv in Hf. apply nn_Dropout_inv in Hd.
    unfold accepted. intuition. }
  split; [exact Hacc |].
  destruct (DRSA_init_accepts s Hacc) as (m0 & s0 & Heq & Hb & _).
  congruence.
Qed.

Lemma DRSA_init_01_accepts [n h L embs o qL qD] s :
  accepted n h L embs o qL qD ->
  exists m s', DRSA_init_01 n h L embs o qL qD s = Ok (m, s')
               /\ built n h L embs o qL qD m
               /\ params_to_train m = None.
Proof.
  intros (HqL & Hh & HL & Hw & Ho & HqD).
  destruct (nn_LSTM_accepts _ _ _ _ s HqL Hh HL Hw) as [ls [Hl Hlen]].
  unfold DRSA_init_01, bindM.
  rewrite Hl, nn_Linear_accepts by lia.
  rewrite nn_Dropout_accepts by exact HqD.
  eexists. eexists. split; [reflexivity |].
  split; [constructor; simpl; auto | reflexivity].
Qed.

Lemma DRSA_init_01_inv [n h L embs o qL qD s m s'] :
  DRSA_init_01 n h L embs o qL qD s = Ok (m, s') ->
  accepted n h L embs o qL qD /\ built n h L embs o qL qD m.
Proof.
  intros H.
  assert (Hacc : accepted n h L embs o qL qD).
  { unfold DRSA_init_01, bindM in H.
    destruct (nn_LSTM _ _ _ _ s) as [[l s1] | e] eqn:Hl; [| discriminate].
    destruct (nn_Linear _ _ s1) as [[f s2] | e] eqn:Hf; [| discriminate].
    destruct (nn_Dropout _ s2) as [[d s3] | e] eqn:Hd; [| discriminate].
    apply nn_LSTM_inv in Hl. apply nn_Linear_inv in Hf. apply nn_Dropout_inv in Hd.
    unfold accepted. intuition. }
  split; [exact Hacc |].
  destruct (DRSA_init_01_accepts s Hacc) as (m0 & s0 & Heq & Hb & _).
  congruence.
Qed.

Lemma constructed_inv [n h L embs o qL qD s m s'] :
  constructed n h L embs o qL qD s m s' ->
  accepted n h L embs o qL qD /\ built n h L embs o qL qD m.
Proof. intros [H | H]; [exact (DRSA_init_inv H) | exact (DRSA_init_01_inv H)]. Qed.

(** The worked instances are what the constructors build. *)
Lemma tables_constructed :
  nn_Embedding 10 5 0%nat = Ok (ex_emb, 1%nat)
  /\ (t0 <~ nn_Embedding 3 1 ;; t1 <~ nn_Embedding 3 1 ;; ret [t0; t1])%ctor 0%nat
     = Ok ([sh_emb0; sh_emb1], 2%nat)
  /\ (t0 <~ nn_Embedding 240 2 ;; t1 <~ nn_Embedding 31 2 ;; ret [t0; t1])%ctor 0%nat
     = Ok (ptp_embeddings, 2%nat).
Proof. repeat split. Qed.

Lemma ex_model_constructed :
  DRSA_init 11 2 1 [ex_emb] 1 0 0 1%nat = Ok (ex_model, 7%nat).
Proof.
  unfold DRSA_init, bindM, nn_LSTM, nn_Linear, nn_Dropout.
  replace (prob_ok 0) with true by (symmetry; apply prob_ok_spec; lra).
  reflexivity.
Qed.

Lemma ex_model_01_constructed :
  DRSA_init_01 11 2 1 [ex_emb] 1 0 0 1%nat = Ok (ex_model_01, 7%nat).
Proof.
  unfold DRSA_init_01, bindM, nn_LSTM, nn_Linear, nn_Dropout.
  replace (prob_ok 0) with true by (symmetry; apply prob_ok_spec; lra).
  reflexivity.
Qed.

Lemma cx_model_constructed : DRSA_init 1 1 1 [] 1 0 (1 / 2) 0%nat = Ok (cx_model, 6%nat).
Proof.
  unfold DRSA_init, bindM, nn_LSTM, nn_Linear, nn_Dropout.
  replace (prob_ok 0) with true by (symmetry; apply prob_ok_spec; lra).
  replace (prob_ok (1 / 2)) with true by (symmetry; apply prob_ok_spec; lra).
  reflexivity.
Qed.

(** ** Traversals *)

Lemma mapM_ok {A B : Type} (f : A -> result B) (g : A -> B) (l : list A) :
  Forall (fun a => f a = Ok (g a)) l -> mapM f l = Ok (map g l).
Proof.
  induction 1 as [| a l Ha _ IH]; simpl; [reflexivity |].
  now rewrite Ha, IH.
Qed.

Lemma raises_only_Ok {A : Type} (e : exn) (a : A) : raises_only e (Ok a).
Proof. intros e' H. discriminate. Qed.

Lemma raises_only_Raise {A : Type} (e : exn) : raises_only e (@Raise A e).
Proof. intros e' H. now inversion H. Qed.

Lemma raises_only_bind {A B : Type} (e : exn) (c : result A) (k : A -> result B) :
  raises_only e c -> (forall a, raises_only e (k a)) -> raises_only e (bind c k).
Proof.
  intros Hc Hk e' H. destruct c as [a | e0]; simpl in H.
  - now apply (Hk a).
  - apply Hc. inversion H. reflexivity.
Qed.

Lemma raises_only_mapM {A B : Type} (e : exn) (f : A -> result B) (l : list A) :
  (forall a, raises_only e (f a)) -> raises_only e (mapM f l).
Proof.
  intros Hf. induction l as [| a l IH]; simpl.
  - apply raises_only_Ok.
  - apply raises_only_bind; [apply Hf |]. intros b.
    apply raises_only_bind; [exact IH |]. intros bs. apply raises_only_Ok.
Qed.

Lemma raises_only_mapM_enum {A B : Type} (e : exn) (f : nat -> A -> result B) (l : list A) :
  (forall i a, raises_only e (f i a)) -> forall i, raises_only e (mapM_enum f i l).
Proof.
  intros Hf. induction l as [| a l IH]; simpl; intros i.
  - apply raises_only_Ok.
  - apply raises_only_bind; [apply Hf |]. intros b.
    apply raises_only_bind; [apply IH |]. intros bs. apply raises_only_Ok.
Qed.

Lemma raises_only_not_Ok {A : Type} (e : exn) (c : result A) :
  raises_only e c -> (forall a, c <> Ok a) -> c = Raise e.
Proof.
  intros Hr Hn. destruct c as [a | e0].
  - now elim (Hn a).
  - f_equal. now apply Hr.
Qed.

Lemma mapM_enum_Ok_inv {A B : Type} (f : nat -> A -> result B) (l : list A) :
  forall i l', mapM_enum f i l = Ok l' ->
  forall j a, nth_error l j = Some a -> exists b, f (i + j)%nat a = Ok b.
Proof.
  induction l as [| a0 l IH]; simpl; intros i l' H j a Hj.
  - destruct j; discriminate.
  - destruct (f i a0) as [b0 |] eqn:Hf0; simpl in H; [| discriminate].
    destruct (mapM_enum f (S i) l) as [bs |] eqn:Hm; simpl in H; [| discriminate].
    destruct j as [| j]; simpl in Hj.
    + inversion Hj; subst. rewrite Nat.add_0_r. now exists b0.
    + destruct (IH (S i) bs Hm j a Hj) as [b Hb]. exists b.
      now replace (i + S j)%nat with (S i + j)%nat by lia.
Qed.

Lemma mapM_enum_ok {A B : Type} (f : nat -> A -> result B) (g : nat -> A -> B) (l : list A) :
  forall i,
  (forall j a, nth_error l j = Some a -> f (i + j)%nat a = Ok (g (i + j)%nat a)) ->
  mapM_enum f i l = Ok (imap_from g i l).
Proof.
  induction l as [| a l IH]; simpl; intros i H; [reflexivity |].
  rewrite <- (Nat.add_0_r i) at 1.
  rewrite (H 0%nat a eq_refl). simpl.
  rewrite Nat.add_0_r.
  rewrite IH; [reflexivity |].
  intros j a' Hj. replace (S i + j)%nat with (i + S j)%nat by lia.
  now apply H.
Qed.

Lemma imap_from_length {A B : Type} (f : nat -> A -> B) (l : list A) :
  forall i, length (imap_from f i l) = length l.
Proof. induction l as [| a l IH]; simpl; intros i; [reflexivity | now rewrite IH]. Qed.

Lemma imap_from_firstn {A B : Type} (f : nat -> A -> B) (n : nat) (l : list A) :
  forall i, firstn n (imap_from f i l) = imap_from f i (firstn n l).
Proof.
  revert n. induction l as [| a l IH]; intros [| n] i; simpl; try reflexivity.
  now rewrite IH.
Qed.

Lemma imap_from_ext {A B : Type} (f g : nat -> A -> B) (l : list A) :
  forall i,
  (forall j a, nth_error l j = Some a -> f (i + j)%nat a = g (i + j)%nat a) ->
  imap_from f i l = imap_from g i l.
Proof.
  induction l as [| a l IH]; simpl; intros i H; [reflexivity |].
  f_equal.
  - specialize (H 0%nat a eq_refl). now rewrite Nat.add_0_r in H.
  - apply IH. intros j a' Hj. replace (S i + j)%nat with (i + S j)%nat by lia.
    now apply H.
Qed.

Lemma imap_from_Forall {A B : Type} (P : B -> Prop) (f : nat -> A -> B) (l : list A) :
  forall i,
  (forall j a, nth_error l j = Some a -> P (f (i + j)%nat a)) ->
  Forall P (imap_from f i l).
Proof.
  induction l as [| a l IH]; simpl; intros i H; constructor.
  - specialize (H 0%nat a eq_refl). now rewrite Nat.add_0_r in H.
  - apply IH. intros j a' Hj. replace (S i + j)%nat with (i + S j)%nat by lia.
    now apply H.
Qed.

(** ** Feature fusion on rank-3 input *)

Lemma Forall2_impl {A : Type} (P Q : A -> Prop) (X : list (list A)) :
  (forall a, P a -> Q a) -> Forall (Forall P) X -> Forall (Forall Q) X.
Proof.
  intros H HX. eapply Forall_impl; [| exact HX].
  intros l Hl. eapply Forall_impl; [| exact Hl]. exact H.
Qed.

Lemma mapM2_ok {A B : Type} (f : A -> result B) (g : A -> B) (X : list (list A)) :
  Forall (Forall (fun a => f a = Ok (g a))) X ->
  mapM (mapM f) X = Ok (map (map g) X).
Proof.
  intros H. apply mapM_ok.
  eapply Forall_impl; [| exact H].
  intros l Hl. now apply mapM_ok.
Qed.

Lemma embedding_lookup_ok w e z :
  (0 <= z < Z.of_nat (num_embeddings e))%Z ->
  embedding_lookup w e z = Ok (embedding_row w e z).
Proof.
  intros [H0 H1]. unfold embedding_lookup.
  destruct (Z.leb_spec 0 z); [| lia].
  destruct (Z.ltb_spec z (Z.of_nat (num_embeddings e))); [| lia].
  reflexivity.
Qed.

Lemma embedding_lookup_bad w e z :
  ~ (0 <= z < Z.of_nat (num_embeddings e))%Z ->
  embedding_lookup w e z = Raise (lookup_error e).
Proof.
  intros H. unfold embedding_lookup.
  destruct (Z.leb_spec 0 z); simpl; [| reflexivity].
  destruct (Z.ltb_spec z (Z.of_nat (num_embeddings e))); [lia | reflexivity].
Qed.

Lemma lookup_column_ok w e i (X : tensor R 3) :
  Forall (Forall (code_at e i)) X ->
  (Xi <- select2 i X ;; Embedding_forward w e 2 (long 2 Xi))
  = Ok (map (map (fun v => embedding_row w e (Rtrunc (nth i v 0)))) X).
Proof.
  intros H.
  assert (Hs : select2 i X = Ok (map (map (fun v => nth i v 0)) X)).
  { unfold select2. apply mapM2_ok.
    eapply Forall2_impl; [| exact H].
    intros v (x & Hx & _). rewrite Hx. f_equal.
    symmetry. now apply nth_error_nth. }
  rewrite Hs. simpl bind. unfold long. simpl tmap. simpl Embedding_forward.
  rewrite (mapM2_ok _ (embedding_row w e)).
  - f_equal. rewrite !map_map. apply map_ext. intros s.
    rewrite !map_map. reflexivity.
  - rewrite map_map. apply Forall_map.
    eapply Forall_impl; [| exact H]. intros s Hs'.
    rewrite map_map. apply Forall_map.
    eapply Forall_impl; [| exact Hs']. intros v (x & Hx & Hr).
    rewrite (nth_error_nth _ _ 0 Hx).
    now apply embedding_lookup_ok.
Qed.

Lemma zipM_app_map {A : Type} (f g : A -> list R) (l : list A) :
  zipM (fun a b => Ok (a ++ b)) (map f l) (map g l)
  = Ok (map (fun v => f v ++ g v) l).
Proof.
  induction l as [| a l IH]; simpl; [reflexivity |]. now rewrite IH.
Qed.

Lemma cat_last_map2 {A : Type} (f g : A -> list R) (X : list (list A)) :
  cat_last 2 (map (map f) X) (map (map g) X)
  = Ok (map (map (fun v => f v ++ g v)) X).
Proof.
  simpl. induction X as [| s X IH]; simpl; [reflexivity |].
  rewrite zipM_app_map. simpl. now rewrite IH.
Qed.

Lemma torch_cat_cons r t ts :
  ts <> [] -> torch_cat r (t :: ts) = (c <- torch_cat r ts ;; cat_last r t c).
Proof. destruct ts; [congruence | reflexivity]. Qed.

Lemma torch_cat_columns w (X : tensor R 3) (k : nat) (embs : list Embedding) :
  forall i,
  torch_cat 2 (imap_from (fun i e => map (map (fun v => embedding_row w e (Rtrunc (nth i v 0)))) X)
                         i embs
               ++ [map (map (skipn k (A:=R))) X])
  = Ok (map (map (fun v => lookups_from w i embs v ++ skipn k v)) X).
Proof.
  induction embs as [| e embs IH]; intros i.
  - reflexivity.
  - simpl imap_from. rewrite <- app_comm_cons.
    rewrite torch_cat_cons by (now destruct (imap_from _ _ _)).
    rewrite IH. unfold bind.
    rewrite cat_last_map2.
    f_equal. apply map_ext. intros s. apply map_ext. intros v.
    unfold lookups_from. simpl. now rewrite app_assoc.
Qed.

Lemma fuse_ok w (self : DRSA) (X : tensor R 3) :
  Forall (Forall (codes_from 0 (embeddings self))) X ->
  fuse w self 0 X = Ok (map (map (fuse_vec w (embeddings self))) X).
Proof.
  intros H. unfold fuse.
  rewrite (mapM_enum_ok _
             (fun i e => map (map (fun v => embedding_row w e (Rtrunc (nth i v 0)))) X)).
  - simpl bind. unfold narrow2, float.
    apply torch_cat_columns.
  - intros j e Hj. apply lookup_column_ok.
    eapply Forall2_impl; [| exact H].
    intros v Hv. now apply Hv.
Qed.

(** ** Shapes *)

Lemma has_shape3 {A : Type} (B T F : nat) (X : tensor A 3) :
  has_shape [B; T; F] 3 X <-> (0 < B)%nat /\ (0 < T)%nat /\ dims3 B T F X.
Proof.
  unfold dims3. simpl. split.
  - intros (HB & [Hnil | HB0] & HX); [discriminate |].
    assert (Hall : Forall (fun s => length s = T /\ (0 < T)%nat
                                   /\ Forall (fun v : list A => length v = F) s) X).
    { eapply Forall_impl; [| exact HX]. intros s (HT & [Hnil | HT0] & Hs); [discriminate |].
      split; [exact HT |]. split; [exact HT0 |].
      eapply Forall_impl; [| exact Hs]. now intros v (HF & _). }
    split; [exact HB0 |]. split.
    + destruct X as [| s X]; [simpl in HB; lia |].
      inversion Hall as [| ? ? (_ & HT0 & _) _]. exact HT0.
    + split; [exact HB |]. eapply Forall_impl; [| exact Hall]. intros s (HT & _ & Hs). auto.
  - intros (HB0 & HT0 & HB & HX). split; [exact HB |]. split; [now right |].
    eapply Forall_impl; [| exact HX]. intros s [HT Hs].
    split; [exact HT |]. split; [now right |].
    eapply Forall_impl; [| exact Hs]. intros v HF.
    split; [exact HF |]. split; [now left |].
    apply Forall_forall. reflexivity.
Qed.

Lemma width_ok_spec (n : nat) (X : tensor R 3) :
  width_ok n X = true <-> Forall (Forall (fun v => length v = n)) X.
Proof.
  unfold width_ok. rewrite forallb_forall, Forall_forall.
  split; intros H s Hs; specialize (H s Hs).
  - rewrite forallb_forall in H. apply Forall_forall. intros v Hv.
    now apply Nat.eqb_eq, H.
  - rewrite Forall_forall in H. apply forallb_forall. intros v Hv.
    now apply Nat.eqb_eq, H.
Qed.

Lemma dims3_width {A : Type} [B T F : nat] [X : list (list (list A))] :
  dims3 B T F X -> Forall (Forall (fun v => length v = F)) X.
Proof.
  intros [_ H]. eapply Forall_impl; [| exact H]. now intros s [_ Hs].
Qed.

Lemma dims3_map {A C : Type} (f : list A -> list C) (B T F F' : nat) (X : list (list (list A))) :
  (forall v, length v = F -> length (f v) = F') ->
  dims3 B T F X -> dims3 B T F' (map (map f) X).
Proof.
  intros Hf [HB HX]. split; [now rewrite length_map |].
  apply Forall_map. eapply Forall_impl; [| exact HX].
  intros s [HT Hs]. split; [now rewrite length_map |].
  apply Forall_map. eapply Forall_impl; [| exact Hs]. exact Hf.
Qed.

Lemma lstm_cell_width w H lay x st :
  length (fst (lstm_cell w H lay x st)) = H.
Proof. unfold lstm_cell. simpl. now rewrite length_map, length_seq. Qed.

Lemma lstm_scan_dims w H lay st xs :
  length (lstm_scan (lstm_cell w H lay) st xs) = length xs
  /\ Forall (fun h => length h = H) (lstm_scan (lstm_cell w H lay) st xs).
Proof.
  revert st. induction xs as [| x xs IH]; intros st; simpl; [auto |].
  destruct (IH (lstm_cell w H lay x st)) as [Hl Hw].
  split; [now rewrite Hl |].
  constructor; [apply lstm_cell_width | exact Hw].
Qed.

Lemma dims3_lstm_layer w H hx l lay (B T F : nat) (X : tensor R 3) :
  dims3 B T F X -> dims3 B T H (lstm_layer w H hx l lay X).
Proof.
  intros [HB HX]. unfold lstm_layer, imap.
  split; [now rewrite imap_from_length |].
  apply imap_from_Forall. intros j s Hj.
  rewrite Forall_forall in HX.
  destruct (HX s (nth_error_In _ _ Hj)) as [HT _].
  destruct (lstm_scan_dims w H lay (initial_state hx H l (0 + j)) s) as [Hl Hw].
  split; [now rewrite Hl | exact Hw].
Qed.

Lemma dims3_dropout3 q training mask (B T F : nat) (X : tensor R 3) :
  dims3 B T F X -> dims3 B T F (dropout3 q training mask X).
Proof.
  intros [HB HX]. unfold dropout3, imap.
  split; [now rewrite imap_from_length |].
  apply imap_from_Forall. intros b s Hb.
  rewrite Forall_forall in HX.
  destruct (HX s (nth_error_In _ _ Hb)) as [HT Hs].
  split; [now rewrite imap_from_length |].
  apply imap_from_Forall. intros t v Ht.
  rewrite imap_from_length.
  rewrite Forall_forall in Hs. apply Hs. eapply nth_error_In, Ht.
Qed.

Lemma dims3_lstm_stack w H q training g hx (B T : nat) (ls : list LSTMLayer) :
  ls <> [] ->
  forall l F (X : tensor R 3),
  dims3 B T F X -> dims3 B T H (lstm_stack w H q training g hx l ls X).
Proof.
  induction ls as [| lay ls IH]; intros Hne l F X HX; [congruence |].
  simpl. destruct ls as [| lay' ls].
  - eapply dims3_lstm_layer, HX.
  - eapply IH; [discriminate |].
    apply dims3_dropout3. eapply dims3_lstm_layer, HX.
Qed.

Lemma linear_vec_length w l h : length (linear_vec w l h) = out_features l.
Proof. unfold linear_vec. now rewrite length_map, length_seq. Qed.

Lemma dims3_emit w self g (B T F : nat) (Hs : tensor R 3) :
  dims3 B T F Hs -> dims3 B T (out_features (fc self)) (emit w self g Hs).
Proof.
  intros H. unfold emit, Sigmoid_forward, Dropout_forward. simpl tmap.
  eapply (dims3_map (map sigmoid) B T (out_features (fc self))).
  { intros v Hv. now rewrite length_map. }
  apply dims3_dropout3.
  eapply dims3_map; [| exact H]. intros v _. apply linear_vec_length.
Qed.

(** ** Range of the emission head *)

Lemma sigmoid_range (x : R) : 0 < sigmoid x < 1.
Proof.
  unfold sigmoid. pose proof (exp_pos (- x)) as He.
  split.
  - apply Rdiv_lt_0_compat; lra.
  - apply Rmult_lt_reg_r with (1 + exp (- x)); [lra |].
    unfold Rdiv. rewrite Rmult_assoc, Rinv_l by lra. lra.
Qed.

Lemma emit_range w self g (Hs : tensor R 3) :
  Forall (Forall (Forall (fun y => 0 < y < 1))) (emit w self g Hs).
Proof.
  unfold emit, Sigmoid_forward. simpl tmap.
  apply Forall_map, Forall_forall. intros s _.
  apply Forall_map, Forall_forall. intros v _.
  apply Forall_map, Forall_forall. intros x _.
  apply sigmoid_range.
Qed.

(** ** The forward pass on rank-3 input *)

Lemma lookups_from_length w embs v :
  forall i, length (lookups_from w i embs v) = list_sum (map embedding_dim embs).
Proof.
  unfold lookups_from.
  induction embs as [| e embs IH]; intros i; simpl; [reflexivity |].
  rewrite length_app, IH. unfold embedding_row.
  now rewrite length_map, length_seq.
Qed.

Lemma fuse_vec_length w embs v :
  length (fuse_vec w embs v) = fused_width embs (length v).
Proof.
  unfold fuse_vec, fused_width.
  now rewrite length_app, lookups_from_length, length_skipn.
Qed.

Lemma encoder_width_nat (embs : list Embedding) (F : nat) :
  (length embs <= F)%nat ->
  encoder_width (Z.of_nat F) embs = Z.of_nat (fused_width embs F).
Proof.
  intros Hk. unfold encoder_width, fused_width.
  assert (Hs : sum_Z (map (fun emb => Z.of_nat (embedding_dim emb)) embs)
               = Z.of_nat (list_sum (map embedding_dim embs))).
  { clear Hk. induction embs as [| e embs IH]; simpl; [reflexivity |].
    rewrite IH. lia. }
  rewrite Hs. lia.
Qed.

Lemma lstm_layer_widths w H hx l lay (X : tensor R 3) :
  Forall (Forall (fun v => length v = H)) (lstm_layer w H hx l lay X).
Proof.
  unfold lstm_layer, imap. apply imap_from_Forall. intros j s _.
  apply lstm_scan_dims.
Qed.

Lemma lstm_stack_widths w H q training g hx (ls : list LSTMLayer) :
  ls <> [] ->
  forall l (X : tensor R 3),
  Forall (Forall (fun v => length v = H)) (lstm_stack w H q training g hx l ls X).
Proof.
  induction ls as [| lay ls IH]; intros Hne l X; [congruence |].
  simpl. destruct ls as [| lay' ls].
  - apply lstm_layer_widths.
  - apply IH. discriminate.
Qed.

Lemma steps_ok_spec (X : tensor R 3) :
  steps_ok X = true <-> Forall (fun s => s <> []) X.
Proof.
  unfold steps_ok. rewrite forallb_forall, Forall_forall.
  split; intros H s Hs; specialize (H s Hs); destruct s; simpl in *;
    congruence.
Qed.

Lemma steps_ok_dims3 [B T F : nat] [X : tensor R 3] :
  dims3 B T F X -> (0 < T)%nat -> steps_ok X = true.
Proof.
  intros [_ HX] HT. apply steps_ok_spec.
  eapply Forall_impl; [| exact HX]. intros s [Hs _] ->. simpl in Hs. lia.
Qed.

Lemma forward_fused w self g [X U : tensor R 3] :
  wired self ->
  fuse w self 0 X = Ok U ->
  forward w self g 3 X
  = if width_ok (input_size (lstm self)) U && steps_ok U
    then Ok (emit w self g (encode w self g None U))
    else Raise RuntimeError.
Proof.
  intros [Hin Hne] HU. unfold forward. rewrite HU. simpl bind.
  unfold float, LSTM_forward.
  destruct (width_ok (input_size (lstm self)) U && steps_ok U) eqn:Hw; [| reflexivity].
  simpl bind. simpl fst. fold (encode w self g None U).
  unfold Linear_forward.
  assert (Hh : width_ok (in_features (fc self)) (encode w self g None U) = true).
  { apply width_ok_spec. rewrite Hin. now apply lstm_stack_widths. }
  rewrite Hh. reflexivity.
Qed.

Lemma codes_from_of_codes_ok embs v :
  (length embs <= length v)%nat -> codes_ok embs v -> codes_from 0 embs v.
Proof.
  intros Hk Hv j e Hj. unfold code_at. change (0 + j)%nat with j.
  assert (Hlt : (j < length v)%nat).
  { apply Nat.lt_le_trans with (length embs); [| exact Hk].
    apply nth_error_Some. congruence. }
  destruct (nth_error v j) as [x |] eqn:Hx.
  - exists x. split; [reflexivity |]. now apply (Hv j e x).
  - apply nth_error_None in Hx. lia.
Qed.

Lemma fuse_valid w self [B T F : nat] [X : tensor R 3] :
  dims3 B T F X -> (length (embeddings self) <= F)%nat ->
  in_vocab (embeddings self) X ->
  fuse w self 0 X = Ok (map (map (fuse_vec w (embeddings self))) X).
Proof.
  intros HX Hk Hv. apply fuse_ok.
  apply dims3_width in HX. unfold in_vocab in Hv.
  rewrite Forall_forall in HX, Hv. apply Forall_forall. intros s Hs.
  specialize (HX s Hs). specialize (Hv s Hs).
  rewrite Forall_forall in HX, Hv. apply Forall_forall. intros v Hin.
  apply codes_from_of_codes_ok; [| now apply Hv].
  now rewrite (HX v Hin).
Qed.

Lemma forward_valid w self g [B T F : nat] [X : tensor R 3] :
  wired self -> dims3 B T F X -> (0 < T)%nat ->
  (length (embeddings self) <= F)%nat ->
  in_vocab (embeddings self) X ->
  input_size (lstm self) = fused_width (embeddings self) F ->
  forward w self g 3 X
  = Ok (emit w self g (encode w self g None (map (map (fuse_vec w (embeddings self))) X))).
Proof.
  intros Hw HX HT Hk Hv Hin.
  rewrite (forward_fused w self g Hw (fuse_valid w self HX Hk Hv)).
  assert (HU : dims3 B T (input_size (lstm self))
                 (map (map (fuse_vec w (embeddings self))) X)).
  { eapply dims3_map; [| exact HX].
    intros v Hlen. now rewrite fuse_vec_length, Hlen, Hin. }
  rewrite (proj2 (width_ok_spec _ _) (dims3_width HU)), (steps_ok_dims3 HU HT).
  reflexivity.
Qed.

Lemma forward_width_mismatch w self g [B T F : nat] [X : tensor R 3] :
  wired self -> dims3 B T F X -> (0 < B)%nat -> (0 < T)%nat ->
  (length (embeddings self) <= F)%nat ->
  in_vocab (embeddings self) X ->
  input_size (lstm self) <> fused_width (embeddings self) F ->
  forward w self g 3 X = Raise RuntimeError.
Proof.
  intros Hw HX HB HT Hk Hv Hin.
  rewrite (forward_fused w self g Hw (fuse_valid w self HX Hk Hv)).
  destruct (width_ok _ _) eqn:Hok; [| reflexivity].
  exfalso. apply width_ok_spec in Hok.
  destruct HX as [HlenB HX].
  destruct X as [| s X]; [simpl in HlenB; lia |].
  inversion HX as [| ? ? [HlenT Hs] _]; subst.
  destruct s as [| v s]; [simpl in HT; lia |].
  inversion Hs as [| ? ? Hlen _]; subst.
  simpl in Hok. inversion Hok as [| ? ? Hok1 _]; subst.
  inversion Hok1 as [| ? ? Hlenv _]; subst.
  rewrite fuse_vec_length in Hlenv. congruence.
Qed.

Lemma built_wired [n h L embs o qL qD m] mode :
  accepted n h L embs o qL qD -> built n h L embs o qL qD m ->
  wired (DRSA_train mode m).
Proof.
  intros (_ & Hh & HL & _) [_ _ _ Hhs Hlen _ Hif _ _ _]. split; simpl.
  - now rewrite Hif, Hhs.
  - intros Hnil. rewrite Hnil in Hlen. simpl in Hlen. lia.
Qed.

Lemma Rtrunc_IZR (z : Z) : Rtrunc (IZR z) = z.
Proof.
  unfold Rtrunc. destruct (Rle_dec 0 (IZR z)) as [H | H].
  - apply ZfloorZ.
  - unfold Zceil. rewrite <- opp_IZR, ZfloorZ. lia.
Qed.

Lemma ex_accepted : accepted 11 2 1 [ex_emb] 1 0 0.
Proof. unfold accepted, encoder_width. simpl. repeat split; try lia; lra. Qed.

Lemma ex_X_in_vocab : in_vocab [ex_emb] ex_X.
Proof.
  unfold in_vocab, ex_X.
  repeat (apply Forall_cons || apply Forall_nil);
    intros [| i] e x He Hx; simpl in He, Hx;
    try (destruct i; discriminate);
    inversion He; inversion Hx; subst; rewrite Rtrunc_IZR; simpl; lia.
Qed.

Lemma ex_X_shape : has_shape [1; 2; 11]%nat 3 ex_X.
Proof. apply has_shape3. repeat split; repeat constructor. Qed.

(** ** C1: shape and range of the output *)




(** ** C10: the fused width is the encoder's input width *)

(** C10.  Construction sets the encoder's input width to the sum of the
    embedding dimensions plus [n_features] minus [k], computed from the
    embedding list that [forward] fuses with; hence for an input of trailing
    dimension [n_features] whose categorical columns hold in-vocabulary codes
    the fused features have exactly that width and [forward] returns an
    output instead of raising. *)
Theorem fused_width_matches_encoder :
  forall (n h L : Z) (embs : list Embedding) (o : Z) (qL qD : R) (s s' : pid) (m : DRSA),
    constructed n h L embs o qL qD s m s' ->
    embeddings m = embs
    /\ Z.of_nat (input_size (lstm m)) = encoder_width n embs
    /\ forall (w : weights) (g : draws) (mode : bool) (B T F : nat) (X : tensor R 3),
         Z.of_nat F = n ->
         has_shape [B; T; F] 3 X ->
         categorical_ok embs F X ->
         exists U out : tensor R 3,
           fuse w (DRSA_train mode m) 0 X = Ok U
           /\ has_shape [B; T; input_size (lstm m)] 3 U
           /\ forward w (DRSA_train mode m) g 3 X = Ok out.
Proof.
  intros n h L embs o qL qD s s' m Hinit.
  destruct (constructed_inv Hinit) as [Hacc Hb].
  assert (Hw : forall mode, wired (DRSA_train mode m))
    by (intros mode; exact (built_wired mode Hacc Hb)).
  destruct Hb as [_ Hemb His _ _ _ _ _ _ _].
  destruct Hacc as (_ & _ & _ & Hwd & _).
  split; [exact Hemb |]. split; [rewrite His; lia |].
  intros w g mode B T F X HF HX [Hk Hv]. subst n.
  apply has_shape3 in HX. destruct HX as (HB0 & HT0 & HX).
  assert (Hin : input_size (lstm m) = fused_width embs F).
  { rewrite His, encoder_width_nat by exact Hk. apply Nat2Z.id. }
  exists (map (map (fuse_vec w embs)) X). eexists. split; [| split].
  - rewrite <- Hemb.
    apply (fuse_valid w (DRSA_train mode m) HX); simpl; rewrite Hemb; assumption.
  - apply has_shape3. split; [exact HB0 |]. split; [exact HT0 |].
    eapply dims3_map; [| exact HX].
    intros v Hlen. now rewrite fuse_vec_length, Hlen, Hin.
  - apply (forward_valid w (DRSA_train mode m) g (Hw mode) HX); simpl; rewrite ?Hemb; assumption.
Qed.

Lemma fused_width_matches_encoder_witness :
  Z.of_nat (input_size (lstm ex_model)) = 15%Z
  /\ exists U out : tensor R 3,
       fuse ex_w (DRSA_train false ex_model) 0 ex_X = Ok U
       /\ has_shape [1; 2; 15]%nat 3 U
       /\ forward ex_w (DRSA_train false ex_model) ex_g 3 ex_X = Ok out.
Proof.
  destruct (fused_width_matches_encoder 11 2 1 [ex_emb] 1 0 0 1%nat 7%nat ex_model
              (or_introl ex_model_constructed))
    as (_ & Hwidth & Hfwd).
  split; [exact Hwidth |].
  apply (Hfwd ex_w ex_g false 1%nat 2%nat 11%nat ex_X eq_refl ex_X_shape).
  split; [simpl; lia | exact ex_X_in_vocab].
Defined.

(** ** C4: the fused feature vector *)



(** ** C7: out-of-vocabulary codes *)

Lemma mapM_nth {A B : Type} (f : A -> result B) (l : list A) :
  forall l' j a, mapM f l = Ok l' -> nth_error l j = Some a ->
                 exists b, f a = Ok b /\ nth_error l' j = Some b.
Proof.
  induction l as [| a0 l IH]; simpl; intros l' j a H Hj.
  - destruct j; discriminate.
  - destruct (f a0) as [b0 |] eqn:Hf0; simpl in H; [| discriminate].
    destruct (mapM f l) as [bs |] eqn:Hm; simpl in H; [| discriminate].
    inversion H; subst l'. clear H.
    destruct j as [| j]; simpl in Hj |- *.
    + inversion Hj; subst. now exists b0.
    + now apply IH.
Qed.

Lemma select2_raises_only {A : Type} i (X : list (list (list A))) :
  raises_only IndexError (select2 i X).
Proof.
  unfold select2. apply raises_only_mapM. intros s.
  apply raises_only_mapM. intros v.
  destruct (nth_error v i); [apply raises_only_Ok | apply raises_only_Raise].
Qed.

Lemma raises_in_Ok {A : Type} (P : exn -> Prop) (a : A) : raises_in P (Ok a).
Proof. intros e H. discriminate. Qed.

Lemma raises_in_bind {A B : Type} (P : exn -> Prop) (c : result A) (k : A -> result B) :
  raises_in P c -> (forall a, raises_in P (k a)) -> raises_in P (bind c k).
Proof.
  intros Hc Hk. destruct c as [a | e0]; simpl.
  - apply Hk.
  - intros e H. inversion H; subst. now apply Hc.
Qed.

Lemma raises_in_mapM {A B : Type} (P : exn -> Prop) (f : A -> result B) (l : list A) :
  (forall a, raises_in P (f a)) -> raises_in P (mapM f l).
Proof.
  intros Hf. induction l as [| a l IH]; simpl.
  - apply raises_in_Ok.
  - apply raises_in_bind; [apply Hf |]. intros b.
    apply raises_in_bind; [exact IH |]. intros bs. apply raises_in_Ok.
Qed.

Lemma raises_in_mapM_enum {A B : Type} (P : exn -> Prop) (f : nat -> A -> result B)
  (l : list A) :
  (forall i a, In a l -> raises_in P (f i a)) -> forall i, raises_in P (mapM_enum f i l).
Proof.
  induction l as [| a l IH]; intros Hf i; simpl.
  - apply raises_in_Ok.
  - apply raises_in_bind; [apply Hf; now left |]. intros b.
    apply raises_in_bind; [apply IH; intros j a' Ha'; apply Hf; now right |].
    intros bs. apply raises_in_Ok.
Qed.

Lemma raises_in_impl {A : Type} (P Q : exn -> Prop) (c : result A) :
  (forall e, P e -> Q e) -> raises_in P c -> raises_in Q c.
Proof. intros H Hc e He. apply H, Hc, He. Qed.

Lemma lookup_error_nonempty e : weight_empty e = false -> lookup_error e = IndexError.
Proof. unfold lookup_error. now intros ->. Qed.

Lemma lookup_error_exn e : lookup_exn (lookup_error e).
Proof. unfold lookup_error, lookup_exn. destruct (weight_empty e); auto. Qed.

(** A table raises the exception of its out-of-range lookups or none. *)
Lemma Embedding_forward_raises w e r :
  forall Z0 : tensor Z r, raises_in (eq (lookup_error e)) (Embedding_forward w e r Z0).
Proof.
  induction r as [| r IH]; simpl; intros Z0.
  - unfold embedding_lookup.
    destruct (_ && _)%bool; [apply raises_in_Ok |].
    intros e' H. now inversion H.
  - apply raises_in_mapM. exact IH.
Qed.

(** One step of the list comprehension of [forward]: a failure is the
    [IndexError] of the subscript or the exception of the table. *)
Lemma lookup_step_raises w e i r' (X : tensor R (3 + r')) :
  raises_in (fun e' => e' = IndexError \/ e' = lookup_error e)
    (Xi <- select2 i X ;; Embedding_forward w e (2 + r') (long (2 + r') Xi)).
Proof.
  apply raises_in_bind.
  - intros e' H. left. exact (select2_raises_only i X e' H).
  - intros Xi e' H. right. symmetry. exact (Embedding_forward_raises w e _ _ e' H).
Qed.

(** The list comprehension of [forward] fails with [IndexError] or
    [RuntimeError] or not at all, whatever the rank of the input. *)
Lemma lookups_raise w embs r' (X : tensor R (3 + r')) i :
  raises_in lookup_exn
    (mapM_enum (fun i emb =>
                  Xi <- select2 i X ;;
                  Embedding_forward w emb (2 + r') (long (2 + r') Xi)) i embs).
Proof.
  apply raises_in_mapM_enum. intros j e _.
  eapply raises_in_impl; [| apply lookup_step_raises].
  intros e' [-> | ->]; [now left | apply lookup_error_exn].
Qed.

(** With tables that have entries, it fails with [IndexError] or not at
    all. *)
Lemma lookups_raise_only w embs r' (X : tensor R (3 + r')) i :
  tables_nonempty embs ->
  raises_only IndexError
    (mapM_enum (fun i emb =>
                  Xi <- select2 i X ;;
                  Embedding_forward w emb (2 + r') (long (2 + r') Xi)) i embs).
Proof.
  intros Hne.
  assert (H : raises_in (eq IndexError)
                (mapM_enum (fun i emb =>
                              Xi <- select2 i X ;;
                              Embedding_forward w emb (2 + r') (long (2 + r') Xi)) i embs)).
  { apply raises_in_mapM_enum. intros j e He.
    eapply raises_in_impl; [| apply lookup_step_raises].
    unfold tables_nonempty in Hne. rewrite Forall_forall in Hne.
    intros e' [-> | ->]; [reflexivity |].
    symmetry. apply lookup_error_nonempty. now apply Hne. }
  intros e' He'. symmetry. now apply H.
Qed.


Lemma ex_tables_nonempty : tables_nonempty (embeddings ex_model).
Proof. repeat constructor. Qed.


Lemma embedding_lookup_no_rows w e z :
  num_embeddings e = 0%nat -> embedding_lookup w e z = Raise RuntimeError.
Proof.
  intros H0. rewrite embedding_lookup_bad by (rewrite H0; simpl; lia).
  unfold lookup_error, weight_empty. now rewrite H0.
Qed.


(** ** C3: inputs of the wrong shape *)

Lemma forward_low_rank w self g r (X : tensor R r) :
  (r < 3)%nat -> forward w self g r X = Raise IndexError.
Proof.
  intros Hr. destruct r as [| [| [| r]]]; try reflexivity. lia.
Qed.

Lemma forward_high_rank w self g r (X : tensor R r) :
  (3 < r)%nat -> exists e, forward w self g r X = Raise e.
Proof.
  intros Hr. destruct r as [| [| [| [| r]]]]; try lia.
  unfold forward.
  destruct (fuse w self (S r) X) as [U | e]; simpl bind.
  - exists ValueError. reflexivity.
  - exists e. reflexivity.
Qed.

Lemma encoder_width_shift n n' embs :
  (encoder_width n embs - encoder_width n' embs = n - n')%Z.
Proof. unfold encoder_width. lia. Qed.

Lemma dims3_first {A : Type} [B T F : nat] [X : list (list (list A))] :
  dims3 B T F X -> (0 < B)%nat -> (0 < T)%nat ->
  exists s v, nth_error X 0 = Some s /\ nth_error s 0 = Some v /\ length v = F.
Proof.
  intros [HB HX] HB0 HT0.
  destruct X as [| s X]; [simpl in HB; lia |].
  inversion HX as [| ? ? [HT Hs] _]; subst.
  destruct s as [| v s]; [simpl in HT0; lia |].
  inversion Hs; subst. exists (v :: s), v. auto.
Qed.

(** A categorical column that is missing from some feature vector makes
    the list comprehension fail, at the indexing [X[:, :, i]] if not
    before. *)
Lemma missing_column_fails w self g (X : tensor R 3) b t i [s v] :
  nth_error X b = Some s -> nth_error s t = Some v ->
  (i < length (embeddings self))%nat -> (length v <= i)%nat ->
  exists e0, forward w self g 3 X = Raise e0 /\ lookup_exn e0
             /\ (tables_nonempty (embeddings self) -> e0 = IndexError).
Proof.
  intros Hb Ht Hi Hv.
  destruct (nth_error (embeddings self) i) as [e |] eqn:He;
    [| apply nth_error_None in He; lia].
  unfold forward, fuse.
  set (step := fun (i : nat) (emb : Embedding) =>
                 Xi <- select2 i X ;; Embedding_forward w emb (2 + 0) (long (2 + 0) Xi)).
  assert (Hno : forall Es, mapM_enum step 0 (embeddings self) <> Ok Es).
  { intros Es HEs.
    destruct (mapM_enum_Ok_inv step _ _ _ HEs _ _ He) as [Ei HEi].
    unfold step in HEi. simpl Nat.add in HEi.
    destruct (select2 i X) as [Xi |] eqn:Hsel; simpl in HEi; [| discriminate].
    unfold select2 in Hsel.
    destruct (mapM_nth _ _ _ _ _ Hsel Hb) as (si & Hsi & _).
    destruct (mapM_nth _ _ _ _ _ Hsi Ht) as (xi & Hxi & _).
    apply nth_error_None in Hv. rewrite Hv in Hxi. discriminate. }
  destruct (mapM_enum step 0 (embeddings self)) as [Es | e0] eqn:HE;
    [exfalso; now apply (Hno Es) |].
  cbn [bind]. exists e0. split; [reflexivity |]. split.
  - exact (lookups_raise w (embeddings self) 0 X 0 e0 HE).
  - intros Hne. exact (lookups_raise_only w (embeddings self) 0 X 0 Hne e0 HE).
Qed.

Lemma missing_column_raises w self g (X : tensor R 3) b t i [s v] :
  nth_error X b = Some s -> nth_error s t = Some v ->
  (i < length (embeddings self))%nat -> (length v <= i)%nat ->
  tables_nonempty (embeddings self) ->
  forward w self g 3 X = Raise IndexError.
Proof.
  intros Hb Ht Hi Hv Hne.
  destruct (missing_column_fails w self g X b t i Hb Ht Hi Hv) as (e0 & -> & _ & He0).
  now rewrite (He0 Hne).
Qed.

(** The first step of a traversal that fails decides its exception. *)
Lemma mapM_enum_first_failure {A B : Type} (f : nat -> A -> result B) (e : exn) :
  forall (n : nat) (l : list A) (i : nat) (a : A),
    (forall j a', (j < n)%nat -> nth_error l j = Some a' ->
                  exists b, f (i + j)%nat a' = Ok b) ->
    nth_error l n = Some a -> f (i + n)%nat a = Raise e ->
    mapM_enum f i l = Raise e.
Proof.
  induction n as [| n IH]; intros [| a0 l] i a Hok Hn Hf; try discriminate.
  - simpl in Hn. inversion Hn; subst a0. simpl.
    rewrite Nat.add_0_r in Hf. now rewrite Hf.
  - simpl in Hn. simpl.
    destruct (Hok 0%nat a0 (Nat.lt_0_succ n) eq_refl) as [b0 Hb0].
    rewrite Nat.add_0_r in Hb0. rewrite Hb0. cbn [bind].
    rewrite (IH l (S i) a); [reflexivity | | exact Hn |].
    + intros j a' Hj Ha'.
      destruct (Hok (S j) a' (proj1 (Nat.succ_lt_mono j n) Hj) Ha') as [b Hb].
      exists b. now rewrite <- Nat.add_succ_comm in Hb.
    + now rewrite <- Nat.add_succ_comm in Hf.
Qed.

(** With in-vocabulary codes in the columns that exist, the failure is the
    [IndexError] of the first missing column. *)
Lemma missing_column_raises_in_vocab w self g [B T F : nat] [X : tensor R 3] :
  dims3 B T F X -> (0 < B)%nat -> (0 < T)%nat ->
  (F < length (embeddings self))%nat ->
  in_vocab (embeddings self) X ->
  forward w self g 3 X = Raise IndexError.
Proof.
  intros HX HB HT HF Hv.
  destruct (nth_error (embeddings self) F) as [e |] eqn:He;
    [| apply nth_error_None in He; lia].
  destruct (dims3_first HX HB HT) as (s0 & v0 & Hs0 & Hv0 & Hlen0).
  unfold forward, fuse.
  set (step := fun (i : nat) (emb : Embedding) =>
                 Xi <- select2 i X ;; Embedding_forward w emb (2 + 0) (long (2 + 0) Xi)).
  rewrite (mapM_enum_first_failure step IndexError F (embeddings self) 0 e);
    [reflexivity | | exact He |].
  - intros j e' Hj He'. cbn [Nat.add]. unfold step. eexists.
    apply lookup_column_ok.
    pose proof (dims3_width HX) as HW. unfold in_vocab in Hv.
    rewrite Forall_forall in HW, Hv. apply Forall_forall. intros s Hs.
    specialize (HW s Hs). specialize (Hv s Hs).
    rewrite Forall_forall in HW, Hv. apply Forall_forall. intros v Hin.
    destruct (nth_error v j) as [x |] eqn:Hx.
    + exists x. split; [exact Hx |]. exact (Hv v Hin j e' x He' Hx).
    + apply nth_error_None in Hx. rewrite (HW v Hin) in Hx. lia.
  - cbn [Nat.add]. unfold step.
    assert (Hsel : select2 F X = Raise IndexError).
    { apply raises_only_not_Ok; [apply select2_raises_only |].
      intros Xi Hsel. unfold select2 in Hsel.
      destruct (mapM_nth _ _ _ _ _ Hsel Hs0) as (si & Hsi & _).
      destruct (mapM_nth _ _ _ _ _ Hsi Hv0) as (xi & Hxi & _).
      assert (Hnone : nth_error v0 F = None) by (apply nth_error_None; lia).
      rewrite Hnone in Hxi. discriminate. }
    now rewrite Hsel.
Qed.

(** C3 as the code has it.  [forward] has no shape check of its own; what
    a wrongly shaped input raises is decided by the first library call that
    trips over it.  For a constructed model, in either mode:
    - an input of rank below 3 raises [IndexError];
    - an input of rank above 3 raises and never yields an output;
    - a non-empty rank-3 input whose [k] categorical columns exist and are in
      vocabulary raises [RuntimeError] exactly when its trailing dimension
      differs from [n_features], and yields an output otherwise;
    - a non-empty rank-3 input with fewer than [k] columns raises
      [IndexError] or [RuntimeError] and yields no output; it raises
      [IndexError] when the codes in the columns it has are in vocabulary,
      and when every table has at least one row and one column. *)
Theorem forward_shape_errors :
  forall (n h L : Z) (embs : list Embedding) (o : Z) (qL qD : R) (s s' : pid) (m : DRSA)
         (w : weights) (g : draws) (mode : bool),
    constructed n h L embs o qL qD s m s' ->
    let self := DRSA_train mode m in
    (forall r (X : tensor R r), (r < 3)%nat -> forward w self g r X = Raise IndexError)
    /\ (forall r (X : tensor R r), (3 < r)%nat -> exists e, forward w self g r X = Raise e)
    /\ (forall (B T F : nat) (X : tensor R 3),
          has_shape [B; T; F] 3 X ->
          categorical_ok embs F X ->
          (forward w self g 3 X = Raise RuntimeError <-> Z.of_nat F <> n)
          /\ (Z.of_nat F = n -> exists out, forward w self g 3 X = Ok out))
    /\ (forall (B T F : nat) (X : tensor R 3),
          has_shape [B; T; F] 3 X ->
          (F < length embs)%nat ->
          (forward w self g 3 X = Raise IndexError
           \/ forward w self g 3 X = Raise RuntimeError)
          /\ (in_vocab embs X \/ tables_nonempty embs ->
              forward w self g 3 X = Raise IndexError)).
Proof.
  intros n h L embs o qL qD s s' m w g mode Hinit self.
  destruct (constructed_inv Hinit) as [Hacc Hb].
  pose proof (built_wired mode Hacc Hb) as Hw. fold self in Hw.
  destruct Hb as [_ Hemb His _ _ _ _ _ _ _].
  destruct Hacc as (_ & _ & _ & Hwd & _).
  split; [intros r X; apply forward_low_rank |].
  split; [intros r X; apply forward_high_rank |].
  split.
  - intros B T F X HX [Hk Hv]. apply has_shape3 in HX. destruct HX as (HB & HT & HX).
    assert (Hkn : (length (embeddings self) <= F)%nat) by (simpl; now rewrite Hemb).
    assert (Hvn : in_vocab (embeddings self) X) by (simpl; now rewrite Hemb).
    assert (Heq : Z.of_nat F = n -> input_size (lstm self) = fused_width (embeddings self) F).
    { intros <-. simpl. rewrite His, Hemb, encoder_width_nat by exact Hk. apply Nat2Z.id. }
    assert (Hne : Z.of_nat F <> n -> input_size (lstm self) <> fused_width (embeddings self) F).
    { intros Hn Heq'. apply Hn. simpl in Heq'. rewrite His, Hemb in Heq'.
      pose proof (encoder_width_nat embs F Hk) as HwF.
      pose proof (encoder_width_shift n (Z.of_nat F) embs). lia. }
    split; [split |].
    + intros Hr HF. rewrite (forward_valid w self g Hw HX HT Hkn Hvn (Heq HF)) in Hr.
      discriminate.
    + intros HF. exact (forward_width_mismatch w self g Hw HX HB HT Hkn Hvn (Hne HF)).
    + intros HF. eexists. exact (forward_valid w self g Hw HX HT Hkn Hvn (Heq HF)).
  - intros B T F X HX HF. apply has_shape3 in HX. destruct HX as (HB & HT & HX).
    destruct (dims3_first HX HB HT) as (s0 & v & Hs0 & Hv0 & Hlen).
    assert (HFk : (F < length (embeddings self))%nat) by (simpl; now rewrite Hemb).
    assert (Hlv : (length v <= F)%nat) by lia.
    destruct (missing_column_fails w self g X 0 0 F Hs0 Hv0 HFk Hlv)
      as (e0 & He0 & Hex & Hne0).
    split.
    + rewrite He0. destruct Hex as [-> | ->]; auto.
    + intros [Hv | Hne].
      * apply (missing_column_raises_in_vocab w self g HX HB HT HFk).
        simpl. now rewrite Hemb.
      * rewrite He0. f_equal. apply Hne0. simpl. now rewrite Hemb.
Qed.

Lemma sh_accepted : accepted 2 1 1 [sh_emb0; sh_emb1] 1 0 0.
Proof. unfold accepted, encoder_width. simpl. repeat split; try lia; lra. Qed.

Lemma sh_in_vocab : in_vocab [sh_emb0; sh_emb1] [[[0; 0; 0]]].
Proof.
  unfold in_vocab. repeat (apply Forall_cons || apply Forall_nil).
  intros [| [| i]] e x He Hx; simpl in He, Hx;
    try (destruct i; discriminate);
    inversion He; inversion Hx; subst; rewrite Rtrunc_IZR; simpl; lia.
Qed.

Lemma forward_shape_errors_witness :
  exists (m : DRSA) (s' : pid),
    DRSA_init 2 1 1 [sh_emb0; sh_emb1] 1 0 0 2%nat = Ok (m, s')
    /\ forward ex_w (DRSA_train false m) ex_g 2 [[0; 0]] = Raise IndexError
    /\ forward ex_w (DRSA_train false m) ex_g 3 [[[0]]] = Raise IndexError
    /\ forward ex_w (DRSA_train false m) ex_g 3 [[[0; 0; 0]]] = Raise RuntimeError.
Proof.
  destruct (DRSA_init_accepts 2%nat sh_accepted) as (m & s' & Hinit & _).
  exists m, s'.
  destruct (forward_shape_errors 2 1 1 [sh_emb0; sh_emb1] 1 0 0 2%nat s' m ex_w ex_g false
              (or_introl Hinit))
    as (Hlow & _ & Hwidth & Hmiss).
  split; [exact Hinit |]. split; [| split].
  - apply Hlow. lia.
  - refine (proj2 (Hmiss 1%nat 1%nat 1%nat [[[0]]] _ _) (or_intror _)).
    + apply has_shape3. repeat split; repeat constructor.
    + simpl. lia.
    + repeat constructor.
  - assert (Hs : has_shape [1; 1; 3]%nat 3 ([[[0; 0; 0]]] : tensor R 3))
      by (apply has_shape3; repeat split; repeat constructor).
    assert (Hc : categorical_ok [sh_emb0; sh_emb1] 3 [[[0; 0; 0]]])
      by (split; [simpl; lia | exact sh_in_vocab]).
    apply (proj1 (Hwidth 1%nat 1%nat 3%nat [[[0; 0; 0]]] Hs Hc)).
    simpl. lia.
Defined.

(** C3, refuted as stated.  A model with [n_features = 2] and two embedding
    tables receives an input of shape (1, 1, 1): its trailing dimension
    differs from [n_features], yet the exception is the [IndexError] of the
    subscript [X[:, :, 1]], not a shape error.  The same holds for a
    rank-2 input. *)
Lemma shape_mismatch_raises_IndexError :
  exists (m : DRSA) (s' : pid),
    DRSA_init 2 1 1 [sh_emb0; sh_emb1] 1 0 0 2%nat = Ok (m, s')
    /\ n_features m = 2%Z
    /\ has_shape [1; 1; 1]%nat 3 ([[[0]]] : tensor R 3)
    /\ forward ex_w m ex_g 3 [[[0]]] = Raise IndexError
    /\ forward ex_w m ex_g 2 [[0; 0]] = Raise IndexError.
Proof.
  destruct (DRSA_init_accepts 2%nat sh_accepted) as (m & s' & Hinit & Hb & _).
  exists m, s'. destruct Hb as [Hn Hemb _ _ _ _ _ _ _ _].
  split; [exact Hinit |]. split; [exact Hn |].
  split; [apply has_shape3; repeat split; repeat constructor |]. split.
  - apply (missing_column_raises ex_w m ex_g [[[0]]] 0 0 1 (s:=[[0]]) (v:=[0]));
      try reflexivity.
    + rewrite Hemb. simpl. lia.
    + rewrite Hemb. repeat constructor.
  - reflexivity.
Qed.

(** ** C2: what construction checks *)

(** C2 as the code has it.  The constructor compares no two of its
    arguments.  It completes exactly when each dropout rate lies in [0,1],
    [hidden_dim] and [n_layers] are positive, [output_size] is not negative
    and the derived width (sum of the embedding dimensions plus [n_features]
    minus [k]) is positive; the encoder then expects that derived width,
    whatever the relation between [k] and [n_features]. *)
Theorem construction_checks :
  forall (n h L : Z) (embs : list Embedding) (o : Z) (qL qD : R) (s : pid),
    let checks := 0 <= qL <= 1 /\ (0 < h)%Z /\ (0 < L)%Z
                  /\ (0 < encoder_width n embs)%Z /\ (0 <= o)%Z /\ 0 <= qD <= 1 in
    ((exists m s', DRSA_init n h L embs o qL qD s = Ok (m, s')) <-> checks)
    /\ ((exists m s', DRSA_init_01 n h L embs o qL qD s = Ok (m, s')) <-> checks)
    /\ (forall m s', constructed n h L embs o qL qD s m s' ->
                     n_features m = n /\ embeddings m = embs
                     /\ Z.of_nat (input_size (lstm m)) = encoder_width n embs).
Proof.
  intros n h L embs o qL qD s checks. split; [split | split; [split |]].
  - intros (m & s' & Hinit). exact (proj1 (DRSA_init_inv Hinit)).
  - intros Hacc. destruct (DRSA_init_accepts s Hacc) as (m & s' & Hinit & _).
    now exists m, s'.
  - intros (m & s' & Hinit). exact (proj1 (DRSA_init_01_inv Hinit)).
  - intros Hacc. destruct (DRSA_init_01_accepts s Hacc) as (m & s' & Hinit & _).
    now exists m, s'.
  - intros m s' Hinit. destruct (constructed_inv Hinit) as [Hacc Hb].
    destruct Hb as [Hn Hemb His _ _ _ _ _ _ _].
    destruct Hacc as (_ & _ & _ & Hwd & _).
    repeat split; try assumption. rewrite His. lia.
Qed.

(** C2, refuted as stated.  Construction completes with more embedding
    tables than features ([n_features = 1], two tables), and with
    [n_features = 16] and the two tables of dimension 2 of the notebook, for
    which it builds an encoder of input width 18. *)
Lemma inconsistent_dimensions_accepted :
  (exists m s', DRSA_init 1 2 1 [sh_emb0; sh_emb1] 1 0 0 2%nat = Ok (m, s')
                /\ (Z.of_nat (length (embeddings m)) > n_features m)%Z)
  /\ (exists m s', DRSA_init 16 2 2 ptp_embeddings 1 (1 / 10) (1 / 10) 2%nat = Ok (m, s')
                   /\ input_size (lstm m) = 18%nat).
Proof.
  split.
  - assert (Hacc : accepted 1 2 1 [sh_emb0; sh_emb1] 1 0 0).
    { unfold accepted, encoder_width. simpl. repeat split; try lia; lra. }
    destruct (DRSA_init_accepts 2%nat Hacc) as (m & s' & Hinit & Hb & _).
    exists m, s'. split; [exact Hinit |].
    destruct Hb as [Hn Hemb _ _ _ _ _ _ _ _]. rewrite Hn, Hemb. simpl. lia.
  - assert (Hacc : accepted 16 2 2 ptp_embeddings 1 (1 / 10) (1 / 10)).
    { unfold accepted, encoder_width. simpl. repeat split; try lia; lra. }
    destruct (DRSA_init_accepts 2%nat Hacc) as (m & s' & Hinit & Hb & _).
    exists m, s'. split; [exact Hinit |].
    destruct Hb as [_ _ His _ _ _ _ _ _ _]. rewrite His. reflexivity.
Qed.

(** ** C6: determinism in evaluation mode *)

Lemma imap_from_id {A : Type} (f : nat -> A -> A) (l : list A) :
  (forall i a, f i a = a) -> forall i, imap_from f i l = l.
Proof.
  intros Hf. induction l as [| a l IH]; intros i; simpl; [reflexivity |].
  now rewrite Hf, IH.
Qed.

Lemma dropout3_off q training mask (X : tensor R 3) :
  training = false \/ q = 0 -> dropout3 q training mask X = X.
Proof.
  intros Hoff. unfold dropout3, imap.
  apply imap_from_id. intros b s.
  apply imap_from_id. intros t v.
  apply imap_from_id. intros j x. unfold dropout_elem.
  destruct Hoff as [-> | ->]; [reflexivity |].
  destruct training; [| reflexivity]. simpl.
  destruct (Req_dec_T 0 0) as [_ | Hne]; [reflexivity | now elim Hne].
Qed.

Lemma lstm_stack_off w H q training g g' hx ls :
  training = false \/ q = 0 ->
  forall l (X : tensor R 3),
  lstm_stack w H q training g hx l ls X = lstm_stack w H q training g' hx l ls X.
Proof.
  intros Hoff.
  induction ls as [| lay ls IH]; intros l X; simpl; [reflexivity |].
  destruct ls as [| lay' ls]; [reflexivity |].
  rewrite !(dropout3_off _ _ _ _ Hoff). apply IH.
Qed.

Lemma lstm_final_off w H q training g g' hx ls :
  training = false \/ q = 0 ->
  forall l (X : tensor R 3),
  lstm_final w H q training g hx l ls X = lstm_final w H q training g' hx l ls X.
Proof.
  intros Hoff.
  induction ls as [| lay ls IH]; intros l X; simpl; [reflexivity |].
  f_equal. rewrite !(dropout3_off _ _ _ _ Hoff). apply IH.
Qed.

Lemma LSTM_forward_off w m training g g' hx r (x : tensor R r) :
  training = false \/ lstm_dropout m = 0 ->
  LSTM_forward w m training g hx r x = LSTM_forward w m training g' hx r x.
Proof.
  intros Hoff.
  destruct r as [| [| [| [| r]]]]; try reflexivity.
  unfold LSTM_forward.
  now rewrite (lstm_stack_off w _ _ _ g g' _ _ Hoff), (lstm_final_off w _ _ _ g g' _ _ Hoff).
Qed.

Lemma forward_draws_irrelevant w self g g' r (X : tensor R r) :
  dropout_off self -> forward w self g r X = forward w self g' r X.
Proof.
  intros Hoff.
  assert (HL : training self = false \/ lstm_dropout (lstm self) = 0)
    by (destruct Hoff as [H | [H _]]; auto).
  assert (HD : training self = false \/ p (linear_dropout self) = 0)
    by (destruct Hoff as [H | [_ H]]; auto).
  destruct r as [| [| [| r]]]; try reflexivity.
  unfold forward.
  destruct (fuse w self r X) as [U | e]; [| reflexivity].
  cbn [bind].
  rewrite (LSTM_forward_off w (lstm self) (training self) g g' None _ _ HL).
  destruct (LSTM_forward w (lstm self) (training self) g' None (3 + r) (float (3 + r) U))
    as [[Hs fin] | e]; [| reflexivity].
  cbn [bind fst].
  destruct (Linear_forward w (fc self) Hs) as [out | e]; [| reflexivity].
  cbn [bind]. unfold Dropout_forward. now rewrite !(dropout3_off _ _ _ _ HD).
Qed.

(** C6.  With the model in evaluation mode and its parameters fixed, the
    result of [forward] (output or exception) does not depend on the dropout
    draws: two calls on the same input give the same result. *)
Theorem forward_deterministic_eval :
  forall (w : weights) (self : DRSA) (g g' : draws) (r : nat) (X : tensor R r),
    forward w (DRSA_eval self) g r X = forward w (DRSA_eval self) g' r X.
Proof.
  intros w self g g' r X.
  apply forward_draws_irrelevant.
  left. reflexivity.
Qed.

(** ** C5: causality *)

Lemma map_imap_from {A B C : Type} (h : B -> C) (f : nat -> A -> B) (l : list A) :
  forall i, map h (imap_from f i l) = imap_from (fun i a => h (f i a)) i l.
Proof. induction l as [| a l IH]; intros i; simpl; [reflexivity | now rewrite IH]. Qed.

Lemma imap_from_map {A B C : Type} (f : nat -> B -> C) (h : A -> B) (l : list A) :
  forall i, imap_from f i (map h l) = imap_from (fun i a => f i (h a)) i l.
Proof. induction l as [| a l IH]; intros i; simpl; [reflexivity | now rewrite IH]. Qed.

(** A scan of a prefix is the prefix of the scan: the output at a step is
    computed from the steps before it. *)
Lemma lstm_scan_firstn cell n :
  forall st xs, firstn n (lstm_scan cell st xs) = lstm_scan cell st (firstn n xs).
Proof.
  induction n as [| n IH]; intros st [| x xs]; simpl; try reflexivity.
  now rewrite IH.
Qed.

Lemma lstm_layer_prefix w H hx l lay n (X : tensor R 3) :
  map (firstn n (A:=list R)) (lstm_layer w H hx l lay X)
  = lstm_layer w H hx l lay (map (firstn n (A:=list R)) X).
Proof.
  unfold lstm_layer, imap. rewrite map_imap_from, imap_from_map.
  apply imap_from_ext. intros b s _. apply lstm_scan_firstn.
Qed.

Lemma dropout3_prefix q training mask n (X : tensor R 3) :
  map (firstn n (A:=list R)) (dropout3 q training mask X)
  = dropout3 q training mask (map (firstn n (A:=list R)) X).
Proof.
  unfold dropout3, imap. rewrite map_imap_from, imap_from_map.
  apply imap_from_ext. intros b s _. apply imap_from_firstn.
Qed.

Lemma lstm_stack_prefix w H q training g hx n ls :
  forall l (X : tensor R 3),
  map (firstn n (A:=list R)) (lstm_stack w H q training g hx l ls X)
  = lstm_stack w H q training g hx l ls (map (firstn n (A:=list R)) X).
Proof.
  induction ls as [| lay ls IH]; intros l X; simpl; [reflexivity |].
  destruct ls as [| lay' ls].
  - apply lstm_layer_prefix.
  - now rewrite IH, dropout3_prefix, lstm_layer_prefix.
Qed.

Lemma map2_prefix {A B : Type} (f : A -> B) n (X : list (list A)) :
  map (firstn n (A:=B)) (map (map f) X) = map (map f) (map (firstn n (A:=A)) X).
Proof.
  rewrite !map_map. apply map_ext. intros s. apply firstn_map.
Qed.

Lemma emit_prefix w self g n (Hs : tensor R 3) :
  map (firstn n (A:=list R)) (emit w self g Hs)
  = emit w self g (map (firstn n (A:=list R)) Hs).
Proof.
  unfold emit, Sigmoid_forward, Dropout_forward. simpl tmap.
  now rewrite map2_prefix, dropout3_prefix, map2_prefix.
Qed.

(** What a successful call has computed. *)
Lemma fuse_Ok_inv w self (X U : tensor R 3) :
  fuse w self 0 X = Ok U -> U = map (map (fuse_vec w (embeddings self))) X.
Proof.
  intros HU.
  assert (Hc : Forall (Forall (codes_from 0 (embeddings self))) X).
  { unfold fuse in HU.
    set (step := fun (i : nat) (emb : Embedding) =>
                   Xi <- select2 i X ;; Embedding_forward w emb (2 + 0) (long (2 + 0) Xi)) in HU.
    destruct (mapM_enum step 0 (embeddings self)) as [Es |] eqn:HEs; [| discriminate].
    apply Forall_forall. intros s Hs. apply Forall_forall. intros v Hv.
    intros j e Hj. change (0 + j)%nat with j.
    destruct (In_nth_error _ _ Hs) as [b Hb]. destruct (In_nth_error _ _ Hv) as [t Ht].
    destruct (mapM_enum_Ok_inv step _ _ _ HEs _ _ Hj) as [Ej HEj].
    unfold step in HEj. simpl Nat.add in HEj.
    destruct (select2 j X) as [Xj |] eqn:Hsel; simpl in HEj; [| discriminate].
    unfold select2 in Hsel.
    destruct (mapM_nth _ _ _ _ _ Hsel Hb) as (sj & Hsj & Hbj).
    destruct (mapM_nth _ _ _ _ _ Hsj Ht) as (x & Hx & Htj).
    destruct (nth_error v j) as [x0 |] eqn:Hnth; [| discriminate].
    inversion Hx; subst x0. exists x. split; [exact Hnth |].
    unfold long in HEj. simpl tmap in HEj.
    destruct (mapM_nth _ _ _ _ _ HEj (map_nth_error _ _ _ Hbj)) as (r1 & Hr1 & _).
    destruct (mapM_nth _ _ _ _ _ Hr1 (map_nth_error _ _ _ Htj)) as (r2 & Hr2 & _).
    simpl in Hr2. unfold embedding_lookup in Hr2.
    destruct (Z.leb_spec 0 (Rtrunc x)); simpl in Hr2; [| discriminate].
    destruct (Z.ltb_spec (Rtrunc x) (Z.of_nat (num_embeddings e))); [| discriminate].
    lia. }
  rewrite (fuse_ok w self X Hc) in HU. now inversion HU.
Qed.

Lemma forward_Ok_inv w self g (X out : tensor R 3) :
  forward w self g 3 X = Ok out ->
  out = emit w self g
          (encode w self g None (map (map (fuse_vec w (embeddings self))) X)).
Proof.
  unfold forward.
  destruct (fuse w self 0 X) as [U |] eqn:HU; [| discriminate].
  apply fuse_Ok_inv in HU. subst U. cbn [bind].
  unfold float, LSTM_forward. cbn [Nat.add].
  match goal with |- context [width_ok ?n ?V && steps_ok ?V] =>
    destruct (width_ok n V && steps_ok V) end; [| discriminate].
  cbn [bind fst]. unfold Linear_forward.
  match goal with |- context [width_ok ?n ?V] => destruct (width_ok n V) end;
    [| discriminate].
  cbn [bind].
  intros H. now inversion H.
Qed.

Lemma encode_off w self g g' hx (U : tensor R 3) :
  dropout_off self -> encode w self g hx U = encode w self g' hx U.
Proof.
  intros Hoff. unfold encode. apply lstm_stack_off.
  destruct Hoff as [H | [H _]]; auto.
Qed.

Lemma emit_off w self g g' (Hs : tensor R 3) :
  dropout_off self -> emit w self g Hs = emit w self g' Hs.
Proof.
  intros Hoff. unfold emit, Dropout_forward.
  assert (HD : training self = false \/ p (linear_dropout self) = 0)
    by (destruct Hoff as [H | [_ H]]; auto).
  now rewrite !(dropout3_off _ _ _ _ HD).
Qed.

(** C5 as the code has it.  When dropout does nothing (evaluation mode,
    or both rates 0), or the two calls see the same dropout draws, two
    inputs that agree on the time steps up to and including [t] give outputs
    that agree on those time steps; the inputs may differ in length beyond
    [t]. *)
Theorem forward_causal :
  forall (w : weights) (self : DRSA) (g g' : draws) (X X' out out' : tensor R 3) (t : nat),
    dropout_off self \/ g = g' ->
    forward w self g 3 X = Ok out ->
    forward w self g' 3 X' = Ok out' ->
    agree_upto (S t) X X' ->
    agree_upto (S t) out out'.
Proof.
  intros w self g g' X X' out out' t Hg Hout Hout' HX.
  apply forward_Ok_inv in Hout. apply forward_Ok_inv in Hout'.
  assert (Hout2 : out' = emit w self g
                    (encode w self g None (map (map (fuse_vec w (embeddings self))) X'))).
  { destruct Hg as [Ht | <-]; [| exact Hout'].
    now rewrite Hout', (emit_off w self g' g _ Ht), (encode_off w self g' g _ _ Ht). }
  clear Hout'. subst out out'. unfold agree_upto in *.
  rewrite !emit_prefix. unfold encode. rewrite !lstm_stack_prefix, !map2_prefix.
  now rewrite HX.
Qed.

Lemma ex_model_wired : wired ex_model.
Proof. split; simpl; congruence. Qed.

Lemma ex_X'_in_vocab : in_vocab [ex_emb] ex_X'.
Proof.
  unfold in_vocab, ex_X'.
  repeat (apply Forall_cons || apply Forall_nil);
    intros [| i] e x He Hx; simpl in He, Hx;
    try (destruct i; discriminate);
    inversion He; inversion Hx; subst; rewrite Rtrunc_IZR; simpl; lia.
Qed.

Lemma forward_causal_witness :
  exists out out' : tensor R 3,
    forward ex_w ex_model ex_g 3 ex_X = Ok out
    /\ forward ex_w ex_model ex_g 3 ex_X' = Ok out'
    /\ agree_upto 1 out out'.
Proof.
  assert (HX : dims3 1 2 11 ex_X) by (split; simpl; repeat constructor).
  assert (HX' : dims3 1 2 11 ex_X') by (split; simpl; repeat constructor).
  assert (Hk : (length (embeddings ex_model) <= 11)%nat) by (simpl; lia).
  pose proof (forward_valid ex_w ex_model ex_g ex_model_wired HX (Nat.lt_0_succ 1) Hk
                ex_X_in_vocab eq_refl)
    as Hout.
  pose proof (forward_valid ex_w ex_model ex_g ex_model_wired HX' (Nat.lt_0_succ 1) Hk
                ex_X'_in_vocab eq_refl)
    as Hout'.
  eexists. eexists. split; [exact Hout |]. split; [exact Hout' |].
  apply (forward_causal ex_w ex_model ex_g ex_g ex_X ex_X' _ _ 0 (or_intror eq_refl) Hout Hout').
  reflexivity.
Defined.

(** The dropout layer at rate 1/2 in training mode. *)
Lemma dropout_elem_half (y : R) :
  dropout_elem (1 / 2) true true y = 0 /\ dropout_elem (1 / 2) true false y = y / (1 - 1 / 2).
Proof.
  unfold dropout_elem. simpl.
  destruct (Req_dec_T (1 / 2) 0) as [H | _]; [lra |].
  destruct (Req_dec_T (1 / 2) 1) as [H | _]; [lra |].
  split; reflexivity.
Qed.

Lemma sigmoid_injective (x y : R) : sigmoid x = sigmoid y -> x = y.
Proof.
  unfold sigmoid. intros H.
  pose proof (exp_pos (- x)) as Hx. pose proof (exp_pos (- y)) as Hy.
  assert (He : exp (- x) = exp (- y)).
  { apply (f_equal Rinv) in H. unfold Rdiv in H.
    rewrite !Rmult_1_l, !Rinv_inv in H. lra. }
  apply exp_inv in He. lra.
Qed.

(** The two calls of the dropout instance, evaluated. *)
Lemma cx_model_valid :
  wired cx_model /\ dims3 1 1 1 ([[[0]]] : tensor R 3)
  /\ (length (embeddings cx_model) <= 1)%nat /\ in_vocab (embeddings cx_model) [[[0]]].
Proof.
  split; [split; simpl; congruence |].
  split; [split; simpl; repeat constructor |].
  split; [simpl; lia |].
  unfold in_vocab. repeat (apply Forall_cons || apply Forall_nil).
  intros [| i] e x He; discriminate.
Qed.

Lemma cx_forward_dropped : forward cx_w cx_model cx_g 3 [[[0]]] = Ok [[[sigmoid 0]]].
Proof.
  destruct cx_model_valid as (Hw & HX & Hk & Hv).
  rewrite (forward_valid cx_w cx_model cx_g Hw HX (Nat.lt_0_succ 0) Hk Hv eq_refl).
  unfold emit, encode, Sigmoid_forward, Dropout_forward, dropout3, imap. simpl.
  now rewrite (proj1 (dropout_elem_half _)).
Qed.

Lemma cx_forward_kept : forward cx_w cx_model ex_g 3 [[[0]]] = Ok [[[sigmoid 2]]].
Proof.
  destruct cx_model_valid as (Hw & HX & Hk & Hv).
  rewrite (forward_valid cx_w cx_model ex_g Hw HX (Nat.lt_0_succ 0) Hk Hv eq_refl).
  unfold emit, encode, Sigmoid_forward, Dropout_forward, dropout3, imap. simpl.
  rewrite (proj2 (dropout_elem_half _)).
  match goal with
  | |- Ok [[[sigmoid ?y]]] = _ => replace y with 2; [reflexivity |]
  end.
  unfold dot, dot_from, cx_w. simpl. field.
Qed.

Lemma sigmoid_0_2 : sigmoid 0 <> sigmoid 2.
Proof. intros H. apply sigmoid_injective in H. lra. Qed.


(** C5, refuted as stated.  A freshly constructed model is in training
    mode; with dropout rate 1/2 after the linear layer, two calls on one and
    the same input whose dropout draws differ give different outputs already
    at the first time step. *)
Lemma dropout_breaks_prefix_equality :
  exists out out' : tensor R 3,
    DRSA_init 1 1 1 [] 1 0 (1 / 2) 0%nat = Ok (cx_model, 6%nat)
    /\ forward cx_w cx_model cx_g 3 [[[0]]] = Ok out
    /\ forward cx_w cx_model ex_g 3 [[[0]]] = Ok out'
    /\ agree_upto 1 [[[0]]] [[[0]]]
    /\ ~ agree_upto 1 out out'.
Proof.
  exists [[[sigmoid 0]]], [[[sigmoid 2]]].
  split; [exact cx_model_constructed |].
  split; [exact cx_forward_dropped |].
  split; [exact cx_forward_kept |].
  split; [reflexivity |].
  unfold agree_upto. simpl. intros H. inversion H as [H1]. now apply sigmoid_0_2.
Qed.

(** ** C8: no recurrent state across calls *)

Lemma lstm_stack_zero_hx w H q training g ls :
  forall l (X : tensor R 3),
  lstm_stack w H q training g None l ls X
  = lstm_stack w H q training g (zero_hx H) l ls X.
Proof.
  induction ls as [| lay ls IH]; intros l X; simpl; [reflexivity |].
  assert (Hl : lstm_layer w H None l lay X = lstm_layer w H (zero_hx H) l lay X)
    by reflexivity.
  rewrite Hl. destruct ls; [reflexivity | apply IH].
Qed.

(** C8 as the code has it.  Every call starts the encoder from all-zero
    hidden and cell states, and a call leaves the model object as it found
    it, so the result of a call is [forward] of that call's own arguments,
    whatever was called before: it is determined by the input, the
    parameters, the mode and the dropout draws of that call, and when
    dropout does nothing (evaluation mode, or both rates 0) by the input
    and the parameters alone. *)
Theorem no_state_across_calls :
  forall (w : weights) (self : DRSA) (g : draws),
    let H := hidden_size (lstm self) in
    (forall l b, initial_state None H l b = (repeat 0 H, repeat 0 H))
    /\ (forall (X out : tensor R 3),
          forward w self g 3 X = Ok out ->
          out = emit w self g
                  (encode w self g (zero_hx H)
                     (map (map (fuse_vec w (embeddings self))) X)))
    /\ (forall g1 r1 (X1 : tensor R r1) g2 r2 (X2 : tensor R r2),
          snd (DRSA_call w g1 r1 X1 self) = self
          /\ fst (DRSA_call w g2 r2 X2 (snd (DRSA_call w g1 r1 X1 self)))
             = forward w self g2 r2 X2)
    /\ (forall g' r (X : tensor R r),
          dropout_off self -> forward w self g r X = forward w self g' r X).
Proof.
  intros w self g H. split; [reflexivity |]. split; [| split].
  - intros X out Hout. apply forward_Ok_inv in Hout. rewrite Hout.
    unfold encode. now rewrite lstm_stack_zero_hx.
  - intros g1 r1 X1 g2 r2 X2. split; reflexivity.
  - intros g' r X Hoff. now apply forward_draws_irrelevant.
Qed.

(** C8, refuted as stated.  The output is not a function of the input
    tensor and the parameters alone: in training mode, with dropout rate 1/2
    after the linear layer, the same model with the same parameters maps the
    same input to two different outputs, depending on the dropout draws. *)
Lemma output_depends_on_dropout_draws :
  forward cx_w cx_model cx_g 3 [[[0]]] = Ok [[[sigmoid 0]]]
  /\ forward cx_w cx_model ex_g 3 [[[0]]] = Ok [[[sigmoid 2]]]
  /\ ([[[sigmoid 0]]] : tensor R 3) <> [[[sigmoid 2]]].
Proof.
  split; [exact cx_forward_dropped |]. split; [exact cx_forward_kept |].
  intros H. inversion H as [H1]. now apply sigmoid_0_2.
Qed.

(** ** C9: the parameters handed to the optimizer *)

Lemma In_dedup (l : list pid) :
  forall seen q, In q (dedup seen l) <-> In q l /\ ~ In q seen.
Proof.
  induction l as [| x l IH]; intros seen q; simpl.
  - tauto.
  - destruct (in_dec Nat.eq_dec x seen) as [Hx | Hx].
    + rewrite IH. split.
      * intros [H1 H2]. auto.
      * intros [[<- | H1] H2]; [contradiction | auto].
    + simpl. rewrite IH. simpl. split.
      * intros [<- | [H1 H2]]; [auto |]. split; [auto | tauto].
      * intros [[<- | H1] H2]; [auto |].
        destruct (Nat.eq_dec x q) as [<- | Hne]; [auto |]. right. split; [exact H1 |].
        intros [H | H]; [congruence | contradiction].
Qed.

Lemma module_list_parameters (ms : list Module) :
  module_parameters (M_ModuleList ms) = flat_map module_parameters ms.
Proof. induction ms as [| m ms IH]; simpl in *; [reflexivity | now rewrite IH]. Qed.

Lemma embeddings_parameters (embs : list Embedding) :
  flat_map module_parameters (map M_Embedding embs) = map emb_weight embs.
Proof. induction embs as [| e embs IH]; simpl; [reflexivity | now rewrite IH]. Qed.

(** With [params_to_train] assigned as in [part_000], [parameters()] holds
    exactly the blocks the model computes with. *)
Lemma parameters_with_params_to_train (self : DRSA) :
  params_to_train self
  = Some (M_ModuleList (map M_Embedding (embeddings self)
                        ++ [M_LSTM (lstm self); M_Linear (fc self)])) ->
  forall q, In q (parameters self) <-> In q (trainable_blocks self).
Proof.
  intros Hp q. unfold parameters, named_children, trainable_blocks. rewrite Hp.
  rewrite In_dedup. cbn [flat_map app snd].
  rewrite module_list_parameters, flat_map_app, embeddings_parameters.
  repeat first [rewrite in_app_iff | progress simpl]. tauto.
Qed.

(** Without it, as in [notebooks/01_model.ipynb], [parameters()] holds the
    recurrent and linear blocks only. *)
Lemma parameters_without_params_to_train (self : DRSA) :
  params_to_train self = None ->
  forall q, In q (parameters self)
            <-> In q (flat_map layer_parameters (lstm_layers (lstm self))
                      ++ [lin_weight (fc self); lin_bias (fc self)]).
Proof.
  intros Hp q. unfold parameters, named_children. rewrite Hp.
  rewrite In_dedup. repeat first [rewrite in_app_iff | progress simpl]. tauto.
Qed.

(** [forward] reads the store at the model's own blocks only. *)

Lemma dot_from_ext (row row' : nat -> R) (x : list R) :
  (forall i, row i = row' i) -> forall i, dot_from row i x = dot_from row' i x.
Proof.
  intros H. induction x as [| a x IH]; intros i; simpl; [reflexivity |].
  now rewrite H, IH.
Qed.

Lemma mapM_ext {A B : Type} (f f' : A -> result B) (l : list A) :
  (forall a, f a = f' a) -> mapM f l = mapM f' l.
Proof.
  intros H. induction l as [| a l IH]; simpl; [reflexivity | now rewrite H, IH].
Qed.

Lemma Embedding_forward_ext w w' e r :
  agree_on [emb_weight e] w w' ->
  forall Z0 : tensor Z r, Embedding_forward w e r Z0 = Embedding_forward w' e r Z0.
Proof.
  intros Hw. induction r as [| r IH]; simpl; intros Z0.
  - unfold embedding_lookup, embedding_row.
    destruct (_ && _)%bool; [| reflexivity].
    f_equal. apply map_ext. intros j. apply Hw. now left.
  - apply mapM_ext. exact IH.
Qed.

Lemma mapM_enum_ext_in {A B : Type} (f f' : nat -> A -> result B) (l : list A) :
  (forall i a, In a l -> f i a = f' i a) ->
  forall i, mapM_enum f i l = mapM_enum f' i l.
Proof.
  induction l as [| a l IH]; intros H i; simpl; [reflexivity |].
  rewrite (H i a (or_introl eq_refl)), IH; [reflexivity |].
  intros j b Hb. apply H. now right.
Qed.

Lemma fuse_ext w w' self r (X : tensor R (3 + r)) :
  agree_on (map emb_weight (embeddings self)) w w' ->
  fuse w self r X = fuse w' self r X.
Proof.
  intros Hw. unfold fuse. f_equal.
  apply mapM_enum_ext_in. intros i e He.
  destruct (select2 i X) as [Xi |]; [| reflexivity]. cbn [bind].
  apply Embedding_forward_ext. intros q a b [<- | []].
  apply Hw. now apply in_map.
Qed.

Lemma lstm_cell_ext w w' H lay x st :
  agree_on (layer_parameters lay) w w' ->
  lstm_cell w H lay x st = lstm_cell w' H lay x st.
Proof.
  intros Hw.
  assert (Hg : forall x h j, gate w lay x h j = gate w' lay x h j).
  { intros x0 h j. unfold gate, dot.
    rewrite (dot_from_ext (w (weight_ih lay) j) (w' (weight_ih lay) j)),
            (dot_from_ext (w (weight_hh lay) j) (w' (weight_hh lay) j)),
            (Hw (bias_ih lay) j O), (Hw (bias_hh lay) j O);
      try reflexivity; unfold layer_parameters; simpl; auto;
      intros i; apply Hw; simpl; auto. }
  unfold lstm_cell. f_equal.
  - apply map_ext. intros j. rewrite Hg. f_equal. f_equal. f_equal.
    apply map_ext. intros j'. now rewrite !Hg.
  - apply map_ext. intros j. now rewrite !Hg.
Qed.

Lemma lstm_scan_ext (cell cell' : list R -> state -> state) xs :
  (forall x st, cell x st = cell' x st) ->
  forall st, lstm_scan cell st xs = lstm_scan cell' st xs.
Proof.
  intros H. induction xs as [| x xs IH]; intros st; simpl; [reflexivity |].
  now rewrite H, IH.
Qed.

Lemma lstm_last_ext (cell cell' : list R -> state -> state) xs :
  (forall x st, cell x st = cell' x st) ->
  forall st, lstm_last cell st xs = lstm_last cell' st xs.
Proof.
  intros H. unfold lstm_last.
  induction xs as [| x xs IH]; intros st; simpl; [reflexivity |].
  now rewrite H, IH.
Qed.

Lemma lstm_layer_ext w w' H hx l lay (X : tensor R 3) :
  agree_on (layer_parameters lay) w w' ->
  lstm_layer w H hx l lay X = lstm_layer w' H hx l lay X.
Proof.
  intros Hw. unfold lstm_layer, imap. apply imap_from_ext. intros b s _.
  apply lstm_scan_ext. intros x st. now apply lstm_cell_ext.
Qed.

Lemma agree_on_app ps qs w w' :
  agree_on (ps ++ qs) w w' -> agree_on ps w w' /\ agree_on qs w w'.
Proof.
  intros H. split; intros q i j Hq; apply H, in_app_iff; auto.
Qed.

Lemma lstm_stack_ext w w' H q training g hx ls :
  agree_on (flat_map layer_parameters ls) w w' ->
  forall l (X : tensor R 3),
  lstm_stack w H q training g hx l ls X = lstm_stack w' H q training g hx l ls X.
Proof.
  induction ls as [| lay ls IH]; intros Hw l X; [reflexivity |].
  cbn [flat_map] in Hw. apply agree_on_app in Hw. destruct Hw as [Hlay Hls].
  cbn [lstm_stack]. rewrite (lstm_layer_ext w w' H hx l lay X Hlay).
  destruct ls as [| lay' ls]; [reflexivity |]. now apply IH.
Qed.

Lemma lstm_final_ext w w' H q training g hx ls :
  agree_on (flat_map layer_parameters ls) w w' ->
  forall l (X : tensor R 3),
  lstm_final w H q training g hx l ls X = lstm_final w' H q training g hx l ls X.
Proof.
  induction ls as [| lay ls IH]; intros Hw l X; [reflexivity |].
  cbn [flat_map] in Hw. apply agree_on_app in Hw. destruct Hw as [Hlay Hls].
  cbn [lstm_final]. rewrite (lstm_layer_ext w w' H hx l lay X Hlay).
  f_equal; [| now apply IH].
  unfold imap. apply imap_from_ext. intros b s _.
  apply lstm_last_ext. intros x st. now apply lstm_cell_ext.
Qed.

Lemma forward_ext w w' self g r (X : tensor R r) :
  agree_on (trainable_blocks self) w w' ->
  forward w self g r X = forward w' self g r X.
Proof.
  intros Hw. unfold trainable_blocks in Hw.
  apply agree_on_app in Hw. destruct Hw as [Hemb Hw].
  apply agree_on_app in Hw. destruct Hw as [Hlstm Hfc].
  destruct r as [| [| [| r]]]; try reflexivity.
  unfold forward. rewrite (fuse_ext w w' self r X Hemb).
  destruct (fuse w' self r X) as [U |]; [| reflexivity]. cbn [bind].
  assert (HL : LSTM_forward w (lstm self) (training self) g None (3 + r) (float (3 + r) U)
               = LSTM_forward w' (lstm self) (training self) g None (3 + r) (float (3 + r) U)).
  { destruct r; [| reflexivity]. unfold LSTM_forward. cbn [Nat.add].
    now rewrite (lstm_stack_ext w w' _ _ _ _ _ _ Hlstm),
                (lstm_final_ext w w' _ _ _ _ _ _ Hlstm). }
  rewrite HL.
  destruct (LSTM_forward w' _ _ _ _ _ _) as [[Hs fin] |]; [| reflexivity].
  cbn [bind fst]. unfold Linear_forward.
  destruct (width_ok (in_features (fc self)) Hs); [| reflexivity]. cbn [bind].
  do 3 f_equal. apply map_ext. intros s. apply map_ext. intros h.
  unfold linear_vec. apply map_ext. intros j. unfold dot.
  rewrite (dot_from_ext (w (lin_weight (fc self)) j) (w' (lin_weight (fc self)) j));
    [| intros i; apply Hfc; simpl; auto].
  f_equal. apply Hfc. simpl. auto.
Qed.

Lemma optimizer_step_agree (ps : list pid) (upd w : weights) :
  agree_on ps (optimizer_step ps upd w) upd.
Proof.
  intros q i j Hq. unfold optimizer_step.
  destruct (in_dec Nat.eq_dec q ps); [reflexivity | contradiction].
Qed.

Lemma optimizer_step_frame (ps : list pid) (upd w : weights) (q : pid) :
  ~ In q ps -> optimizer_step ps upd w q = w q.
Proof.
  intros Hq. unfold optimizer_step.
  destruct (in_dec Nat.eq_dec q ps); [contradiction | reflexivity].
Qed.

(** The class of [part_000]: every block the model computes with is in
    [parameters()], so an optimizer built from [parameters()] determines
    every value [forward] reads, the embedding tables included. *)
Theorem params_to_train_registers_all :
  forall (n h L : Z) (embs : list Embedding) (o : Z) (qL qD : R) (s s' : pid) (m : DRSA),
    DRSA_init n h L embs o qL qD s = Ok (m, s') ->
    (forall q, In q (trainable_blocks m) <-> In q (parameters m))
    /\ (forall e, In e embs -> In (emb_weight e) (parameters m))
    /\ (forall (upd w : weights) (g : draws) (r : nat) (X : tensor R r),
          forward (optimizer_step (parameters m) upd w) m g r X = forward upd m g r X).
Proof.
  intros n h L embs o qL qD s s' m Hinit.
  destruct (DRSA_init_inv Hinit) as [Hacc Hb].
  destruct (DRSA_init_accepts s Hacc) as (m0 & s0 & Hinit0 & _ & Hp).
  rewrite Hinit in Hinit0. inversion Hinit0; subst m0 s0. clear Hinit0.
  destruct Hb as [_ Hemb _ _ _ _ _ _ _ _]. rewrite <- Hemb in Hp.
  pose proof (parameters_with_params_to_train m Hp) as Hiff.
  split; [intros q; symmetry; apply Hiff |]. split.
  - intros e He. apply Hiff. unfold trainable_blocks.
    apply in_app_iff. left. rewrite Hemb. now apply in_map.
  - intros upd w g r X. apply forward_ext.
    intros q i j Hq. apply optimizer_step_agree. now apply Hiff.
Qed.

Lemma params_to_train_registers_all_witness :
  exists (m : DRSA) (s' : pid),
    DRSA_init 11 2 1 [ex_emb] 1 0 0 1%nat = Ok (m, s')
    /\ In (emb_weight ex_emb) (parameters m).
Proof.
  destruct (DRSA_init_accepts 1%nat ex_accepted) as (m & s' & Hinit & _).
  exists m, s'. split; [exact Hinit |].
  destruct (params_to_train_registers_all 11 2 1 [ex_emb] 1 0 0 1%nat s' m Hinit)
    as (_ & Hin & _).
  apply Hin. now left.
Defined.



(** C9 on [notebooks/01_model.ipynb].  The class defined there keeps its
    embedding tables in a plain list and never assigns [params_to_train]:
    for the notebook scenario, [parameters()] is the six blocks of the
    recurrent and linear layers, the embedding table (block 0) is not among
    them, and an optimizer built from [parameters()] leaves it as it was.
    The class of [part_000], on the same arguments, lists block 0 too. *)
Theorem notebook_embeddings_not_registered :
  DRSA_init_01 11 2 1 [ex_emb] 1 0 0 1%nat = Ok (ex_model_01, 7%nat)
  /\ parameters ex_model_01 = [1; 2; 3; 4; 5; 6]%nat
  /\ ~ In (emb_weight ex_emb) (parameters ex_model_01)
  /\ (forall upd w : weights,
        optimizer_step (parameters ex_model_01) upd w (emb_weight ex_emb)
        = w (emb_weight ex_emb))
  /\ DRSA_init 11 2 1 [ex_emb] 1 0 0 1%nat = Ok (ex_model, 7%nat)
  /\ parameters ex_model = [1; 2; 3; 4; 5; 6; 0]%nat.
Proof.
  assert (Hnot : ~ In (emb_weight ex_emb) (parameters ex_model_01)).
  { vm_compute. intuition discriminate. }
  split; [exact ex_model_01_constructed |].
  split; [reflexivity |].
  split; [exact Hnot |].
  split; [intros upd w; now apply optimizer_step_frame |].
  split; [exact ex_model_constructed | reflexivity].
Qed.

Lemma alloc_layers_range (n : nat) :
  forall s ls s', alloc_layers n s = Ok (ls, s') ->
  forall q, In q (flat_map layer_parameters ls) -> (s <= q < s')%nat.
Proof.
  induction n as [| n IH]; intros s ls s' H q Hq.
  - inversion H; subst. contradiction.
  - simpl in H. unfold bindM, alloc in H.
    destruct (alloc_layers n (S (S (S (S s))))) as [[ls0 s0] |] eqn:Hn; [| discriminate].
    unfold ret in H. inversion H; subst ls s'. clear H.
    destruct (alloc_layers_ok n (S (S (S (S s))))) as (ls1 & Hls1 & _).
    rewrite Hn in Hls1. inversion Hls1; subst ls1.
    cbn [flat_map] in Hq. apply in_app_iff in Hq. destruct Hq as [Hq | Hq].
    + unfold layer_parameters in Hq. simpl in Hq. lia.
    + specialize (IH _ _ _ Hn q Hq). lia.
Qed.

(** Every block that the notebook's constructor registers is one it has
    allocated itself. *)
Lemma DRSA_init_01_parameters_fresh n h L embs o qL qD s m s' :
  DRSA_init_01 n h L embs o qL qD s = Ok (m, s') ->
  forall q, In q (parameters m) -> (s <= q < s')%nat.
Proof.
  intros H q Hq.
  unfold DRSA_init_01, bindM in H.
  destruct (nn_LSTM _ _ _ _ s) as [[l s1] |] eqn:Hl; [| discriminate].
  destruct (nn_Linear _ _ s1) as [[f s2] |] eqn:Hf; [| discriminate].
  destruct (nn_Dropout _ s2) as [[d s3] |] eqn:Hd; [| discriminate].
  unfold ret in H. inversion H; subst m s'. clear H.
  apply parameters_without_params_to_train in Hq; [| reflexivity]. simpl in Hq.
  assert (Hl' : forall q, In q (flat_map layer_parameters (lstm_layers l)) -> (s <= q < s1)%nat).
  { unfold nn_LSTM, raise in Hl.
    destruct (negb (prob_ok qL)); [discriminate |].
    destruct (h <=? 0)%Z; [discriminate |].
    destruct (L <=? 0)%Z; [discriminate |].
    destruct (encoder_width n embs <=? 0)%Z; [discriminate |].
    unfold bindM in Hl.
    destruct (alloc_layers (Z.to_nat L) s) as [[ls s0] |] eqn:Ha; [| discriminate].
    unfold ret in Hl. inversion Hl; subst l s1. simpl.
    exact (alloc_layers_range _ _ _ _ Ha). }
  assert (Hf' : lin_weight f = s1 /\ lin_bias f = S s1 /\ s2 = S (S s1)).
  { unfold nn_Linear, raise in Hf.
    destruct ((h <? 0)%Z || (o <? 0)%Z)%bool; [discriminate |].
    unfold bindM, alloc, ret in Hf. inversion Hf; subst. auto. }
  assert (Hd' : s3 = s2).
  { unfold nn_Dropout, raise, ret in Hd. destruct (prob_ok qD); [| discriminate].
    now inversion Hd. }
  assert (Hmono : (s <= s1)%nat).
  { unfold nn_LSTM, raise in Hl.
    destruct (negb (prob_ok qL)); [discriminate |].
    destruct (h <=? 0)%Z; [discriminate |].
    destruct (L <=? 0)%Z; [discriminate |].
    destruct (encoder_width n embs <=? 0)%Z; [discriminate |].
    unfold bindM in Hl.
    destruct (alloc_layers_ok (Z.to_nat L) s) as (ls & Hls & _).
    rewrite Hls in Hl. unfold ret in Hl. inversion Hl. lia. }
  destruct Hf' as (Hw & Hbias & Hs2). subst s3 s2.
  apply in_app_iff in Hq. destruct Hq as [Hq | Hq].
  - specialize (Hl' q Hq). lia.
  - simpl in Hq. lia.
Qed.

(** The class of [notebooks/01_model.ipynb], in general: an embedding table
    that existed before the model was constructed is not in
    [parameters()]. *)
Lemma DRSA_init_01_omits_embeddings n h L embs o qL qD s m s' (e : Embedding) :
  DRSA_init_01 n h L embs o qL qD s = Ok (m, s') ->
  In e embs -> (emb_weight e < s)%nat ->
  ~ In (emb_weight e) (parameters m).
Proof.
  intros H _ Hlt Hin.
  pose proof (DRSA_init_01_parameters_fresh _ _ _ _ _ _ _ _ _ _ H _ Hin). lia.
Qed.

Lemma DRSA_init_01_omits_embeddings_witness :
  ~ In (emb_weight ex_emb) (parameters ex_model_01).
Proof.
  apply (DRSA_init_01_omits_embeddings 11 2 1 [ex_emb] 1 0 0 1%nat ex_model_01 7%nat ex_emb
           ex_model_01_constructed).
  - now left.
  - simpl. lia.
Defined.

(** * Outcomes of [forward] on a rank-3 input *)

Lemma lookups_Ok_codes w embs (X : tensor R 3) Es :
  mapM_enum (fun i emb =>
               Xi <- select2 i X ;; Embedding_forward w emb 2 (long 2 Xi)) 0 embs = Ok Es ->
  all_codes_valid embs X.
Proof.
  set (step := fun (i : nat) (emb : Embedding) =>
                 Xi <- select2 i X ;; Embedding_forward w emb 2 (long 2 Xi)).
  intros HEs.
  apply Forall_forall. intros s Hs. apply Forall_forall. intros v Hv.
  intros j e Hj. change (0 + j)%nat with j.
  destruct (In_nth_error _ _ Hs) as [b Hb]. destruct (In_nth_error _ _ Hv) as [t Ht].
  destruct (mapM_enum_Ok_inv step _ _ _ HEs _ _ Hj) as [Ej HEj].
  unfold step in HEj. simpl Nat.add in HEj.
  destruct (select2 j X) as [Xj |] eqn:Hsel; simpl in HEj; [| discriminate].
  unfold select2 in Hsel.
  destruct (mapM_nth _ _ _ _ _ Hsel Hb) as (sj & Hsj & Hbj).
  destruct (mapM_nth _ _ _ _ _ Hsj Ht) as (x & Hx & Htj).
  destruct (nth_error v j) as [x0 |] eqn:Hnth; [| discriminate].
  inversion Hx; subst x0. exists x. split; [exact Hnth |].
  unfold long in HEj. simpl tmap in HEj.
  destruct (mapM_nth _ _ _ _ _ HEj (map_nth_error _ _ _ Hbj)) as (r1 & Hr1 & _).
  destruct (mapM_nth _ _ _ _ _ Hr1 (map_nth_error _ _ _ Htj)) as (r2 & Hr2 & _).
  simpl in Hr2. unfold embedding_lookup in Hr2.
  destruct (Z.leb_spec 0 (Rtrunc x)); simpl in Hr2; [| discriminate].
  destruct (Z.ltb_spec (Rtrunc x) (Z.of_nat (num_embeddings e))); [| discriminate].
  lia.
Qed.

(** The fusion step has two outcomes: the fused features, when every
    categorical column is present and in range, and otherwise the exception
    of the first lookup that fails. *)
Lemma fuse_cases w self (X : tensor R 3) :
  (all_codes_valid (embeddings self) X
   /\ fuse w self 0 X = Ok (map (map (fuse_vec w (embeddings self))) X))
  \/ (~ all_codes_valid (embeddings self) X
      /\ exists e, fuse w self 0 X = Raise e /\ lookup_exn e
                   /\ (tables_nonempty (embeddings self) -> e = IndexError)).
Proof.
  destruct (fuse w self 0 X) as [U | e] eqn:HU.
  - left.
    assert (Hc : all_codes_valid (embeddings self) X).
    { unfold fuse in HU.
      destruct (mapM_enum _ 0 (embeddings self)) as [Es |] eqn:HEs; [| discriminate].
      now apply lookups_Ok_codes in HEs. }
    split; [exact Hc |].
    rewrite (fuse_ok w self X Hc) in HU. now symmetry.
  - right.
    assert (Hn : ~ all_codes_valid (embeddings self) X).
    { intros Hc. rewrite (fuse_ok w self X Hc) in HU. discriminate. }
    split; [exact Hn |]. exists e. split; [reflexivity |]. unfold fuse in HU.
    destruct (mapM_enum _ 0 (embeddings self)) as [Es | e'] eqn:HEs.
    + apply lookups_Ok_codes in HEs. contradiction.
    + cbn [bind] in HU. inversion HU; subst e'. split.
      * exact (lookups_raise w (embeddings self) 0 X 0 e HEs).
      * intros Hne. exact (lookups_raise_only w (embeddings self) 0 X 0 Hne e HEs).
Qed.

Lemma all_codes_valid_shape embs [B T F : nat] [X : tensor R 3] :
  dims3 B T F X -> (0 < B)%nat -> (0 < T)%nat ->
  all_codes_valid embs X <-> categorical_ok embs F X.
Proof.
  intros HX HB HT. unfold categorical_ok, in_vocab, all_codes_valid. split.
  - intros Hc. split.
    + destruct HX as [HlenB HX].
      destruct X as [| s X]; [simpl in HlenB; lia |].
      inversion HX as [| ? ? [HlenT Hs] _]; subst.
      destruct s as [| v s]; [simpl in HT; lia |].
      inversion Hs as [| ? ? Hlen _]; subst.
      inversion Hc as [| ? ? Hc1 _]; subst. inversion Hc1 as [| ? ? Hv _]; subst.
      destruct (Nat.le_gt_cases (length embs) (length v)) as [Hle | Hgt]; [exact Hle |].
      exfalso.
      destruct (nth_error embs (length v)) as [e |] eqn:He.
      * destruct (Hv _ e He) as (x & Hx & _). cbn [Nat.add] in Hx.
        assert (nth_error v (length v) <> None) by congruence.
        apply nth_error_Some in H. lia.
      * apply nth_error_None in He. lia.
    + eapply Forall_impl; [| exact Hc]. intros s Hs.
      eapply Forall_impl; [| exact Hs]. intros v Hv i e x Hi Hx.
      destruct (Hv i e Hi) as (x' & Hx' & Hr). cbn [Nat.add] in Hx'. congruence.
  - intros [Hk Hv]. apply dims3_width in HX.
    rewrite Forall_forall in HX, Hv. apply Forall_forall. intros s Hs.
    specialize (HX s Hs). specialize (Hv s Hs).
    rewrite Forall_forall in HX, Hv. apply Forall_forall. intros v Hin.
    apply codes_from_of_codes_ok; [| now apply Hv].
    now rewrite (HX v Hin).
Qed.

(** The outcomes of [forward] on an input of shape (B, T, F), for a model
    whose linear layer is as wide as the hidden vectors and whose embedding
    tables each have at least one row and one column: [IndexError] exactly
    when there are more embedding tables than columns or some categorical
    code is outside its table; [RuntimeError] exactly when the codes are
    valid and the fused width differs from [input_size]; the output
    otherwise.  [ValueError] is never raised. *)
Theorem forward_outcomes :
  forall (w : weights) (self : DRSA) (g : draws) (B T F : nat) (X : tensor R 3),
    wired self ->
    tables_nonempty (embeddings self) ->
    has_shape [B; T; F] 3 X ->
    (forward w self g 3 X = Raise IndexError
     <-> ~ categorical_ok (embeddings self) F X)
    /\ (forward w self g 3 X = Raise RuntimeError
        <-> categorical_ok (embeddings self) F X
            /\ input_size (lstm self) <> fused_width (embeddings self) F)
    /\ (forall out,
          forward w self g 3 X = Ok out
          <-> categorical_ok (embeddings self) F X
              /\ input_size (lstm self) = fused_width (embeddings self) F
              /\ out = emit w self g
                         (encode w self g None
                            (map (map (fuse_vec w (embeddings self))) X)))
    /\ forward w self g 3 X <> Raise ValueError.
Proof.
  intros w self g B T F X Hw Hne HX.
  apply has_shape3 in HX. destruct HX as (HB & HT & HX).
  pose proof (all_codes_valid_shape (embeddings self) HX HB HT) as Heq.
  destruct (fuse_cases w self X) as [[Hc HU] | [Hc (e & HU & _ & He)]].
  - apply Heq in Hc. destruct (Hc) as [Hk Hv].
    destruct (Nat.eq_dec (input_size (lstm self)) (fused_width (embeddings self) F))
      as [Hin | Hin].
    + rewrite (forward_valid w self g Hw HX HT Hk Hv Hin).
      split; [split; [discriminate | tauto] |].
      split; [split; [discriminate | tauto] |].
      split; [| discriminate].
      intros out. split.
      * intros H. inversion H. auto.
      * intros (_ & _ & ->). reflexivity.
    + rewrite (forward_width_mismatch w self g Hw HX HB HT Hk Hv Hin).
      split; [split; [discriminate | tauto] |].
      split; [split; auto |].
      split; [| discriminate].
      intros out. split; [discriminate | tauto].
  - assert (HF : forward w self g 3 X = Raise IndexError).
    { unfold forward. rewrite HU, (He Hne). reflexivity. }
    rewrite HF. rewrite Heq in Hc.
    split; [split; auto |].
    split; [split; [discriminate | tauto] |].
    split; [| discriminate].
    intros out. split; [discriminate | tauto].
Qed.

Lemma forward_outcomes_witness :
  wired ex_model /\ tables_nonempty (embeddings ex_model)
  /\ has_shape [1; 2; 11]%nat 3 ex_X
  /\ forward ex_w ex_model ex_g 3 ex_X <> Raise ValueError.
Proof.
  split; [apply ex_model_wired |]. split; [apply ex_tables_nonempty |].
  split; [apply ex_X_shape |].
  apply (forward_outcomes ex_w ex_model ex_g 1 2 11 ex_X ex_model_wired
           ex_tables_nonempty ex_X_shape).
Defined.

(** * Categorical codes are read through [.long()] *)

Lemma Forall2_impl' {A B : Type} (P Q : A -> B -> Prop) (l : list A) (l' : list B) :
  (forall a b, P a b -> Q a b) -> Forall2 P l l' -> Forall2 Q l l'.
Proof. intros H. induction 1; constructor; auto. Qed.

Lemma mapM_map_Ok {A B C : Type} (f : A -> result B) (h : B -> C) (l : list A) :
  mapM (fun a => b <- f a ;; Ok (h b)) l = (bs <- mapM f l ;; Ok (map h bs)).
Proof.
  induction l as [| a l IH]; simpl; [reflexivity |].
  destruct (f a) as [b | e]; cbn [bind]; [| reflexivity].
  rewrite IH. destruct (mapM f l) as [bs | e]; reflexivity.
Qed.

Lemma mapM_Forall2 {A B : Type} (f f' : A -> result B) (l l' : list A) :
  Forall2 (fun a a' => f a = f' a') l l' -> mapM f l = mapM f' l'.
Proof. induction 1 as [| a a' l l' Ha _ IH]; simpl; [reflexivity | now rewrite Ha, IH]. Qed.

(** The truncated code in column [j] of a feature vector. *)
Lemma select2_long (j : nat) (X : tensor R 3) {A : Type} (G : tensor Z 2 -> result A) :
  (Xi <- select2 j X ;; G (long 2 Xi))
  = (Zi <- mapM (mapM (fun v : list R =>
                         match nth_error v j with
                         | Some x => Ok (Rtrunc x)
                         | None => Raise IndexError
                         end)) X ;;
     G Zi).
Proof.
  set (sel := fun v : list R =>
                match nth_error v j with Some x => Ok x | None => Raise IndexError end).
  assert (E : mapM (mapM (fun v : list R =>
                            match nth_error v j with
                            | Some x => Ok (Rtrunc x)
                            | None => Raise IndexError
                            end)) X
              = (Xi <- mapM (mapM sel) X ;; Ok (map (map Rtrunc) Xi))).
  { rewrite <- mapM_map_Ok. apply mapM_ext. intros s0.
    rewrite <- mapM_map_Ok. apply mapM_ext. intros v.
    unfold sel. destruct (nth_error v j); reflexivity. }
  rewrite E. unfold select2. fold sel.
  destruct (mapM (mapM sel) X); reflexivity.
Qed.

Lemma mapM_enum_ext_nth {A B : Type} (f f' : nat -> A -> result B) (l : list A) :
  forall i,
  (forall j a, nth_error l j = Some a -> f (i + j)%nat a = f' (i + j)%nat a) ->
  mapM_enum f i l = mapM_enum f' i l.
Proof.
  induction l as [| a l IH]; intros i H; simpl; [reflexivity |].
  pose proof (H 0%nat a eq_refl) as H0. rewrite Nat.add_0_r in H0. rewrite H0.
  rewrite (IH (S i)); [reflexivity |].
  intros j a' Hj. replace (S i + j)%nat with (i + S j)%nat by lia. now apply H.
Qed.

Lemma fuse_same_codes w self (X X' : tensor R 3) :
  Forall2 (Forall2 (same_codes (length (embeddings self)))) X X' ->
  fuse w self 0 X = fuse w self 0 X'.
Proof.
  intros HXX. unfold fuse.
  assert (HN : narrow2 (length (embeddings self)) X = narrow2 (length (embeddings self)) X').
  { unfold narrow2. clear - HXX.
    induction HXX as [| s s' X X' Hs _ IH]; [reflexivity |].
    simpl. rewrite IH. f_equal.
    induction Hs as [| v v' s s' (_ & _ & Hvv) _ IHs]; [reflexivity |].
    simpl. now rewrite IHs, Hvv. }
  rewrite HN. f_equal.
  apply mapM_enum_ext_nth. intros j e Hj. cbn [Nat.add].
  assert (Hjk : (j < length (embeddings self))%nat) by (apply nth_error_Some; congruence).
  rewrite !(select2_long j _ (Embedding_forward w e 2)). f_equal.
  apply mapM_Forall2. eapply Forall2_impl'; [| exact HXX].
  intros s s' Hs. apply mapM_Forall2. eapply Forall2_impl'; [| exact Hs].
  intros v v' (Hl & Hc & _). specialize (Hc j Hjk).
  destruct (nth_error v j) as [x |] eqn:Hx; destruct (nth_error v' j) as [x' |] eqn:Hx'.
  - rewrite (nth_error_nth _ _ 0 Hx), (nth_error_nth _ _ 0 Hx') in Hc. now rewrite Hc.
  - apply nth_error_None in Hx'.
    assert (nth_error v j <> None) by congruence. apply nth_error_Some in H. lia.
  - apply nth_error_None in Hx.
    assert (nth_error v' j <> None) by congruence. apply nth_error_Some in H. lia.
  - reflexivity.
Qed.

(** [forward] reads its categorical columns through [.long()]: two
    inputs of shape (B, T, F) with the same continuous columns and
    categorical codes of equal truncation give the same result, output or
    exception. *)
Theorem forward_ignores_code_fractions :
  forall (w : weights) (self : DRSA) (g : draws) (B T F : nat) (X X' : tensor R 3),
    has_shape [B; T; F] 3 X ->
    Forall2 (Forall2 (same_codes (length (embeddings self)))) X X' ->
    forward w self g 3 X = forward w self g 3 X'.
Proof.
  intros w self g B T F X X' _ HXX.
  unfold forward. now rewrite (fuse_same_codes w self X X' HXX).
Qed.

Lemma Rtrunc_half (z : Z) : (0 <= z)%Z -> Rtrunc (IZR z + 1 / 2) = z.
Proof.
  intros Hz. apply IZR_le in Hz. unfold Rtrunc.
  destruct (Rle_dec 0 (IZR z + 1 / 2)) as [_ | H]; [| lra].
  apply Zfloor_eq. lra.
Qed.

Lemma forward_ignores_code_fractions_witness :
  has_shape [1; 2; 11]%nat 3 ex_X
  /\ Forall2 (Forall2 (same_codes (length (embeddings ex_model)))) ex_X ex_X_frac
  /\ forward ex_w ex_model ex_g 3 ex_X = forward ex_w ex_model ex_g 3 ex_X_frac.
Proof.
  assert (H : Forall2 (Forall2 (same_codes (length (embeddings ex_model)))) ex_X ex_X_frac).
  { unfold ex_X, ex_X_frac.
    repeat (apply Forall2_cons || apply Forall2_nil);
      (split; [reflexivity |]; split; [| reflexivity]);
      intros [| i] Hi; simpl in Hi; try lia; simpl nth.
    - replace (7 / 2) with (IZR 3 + 1 / 2) by lra.
      now rewrite Rtrunc_IZR, Rtrunc_half.
    - replace (9 / 2) with (IZR 4 + 1 / 2) by lra.
      now rewrite Rtrunc_IZR, Rtrunc_half. }
  split; [apply ex_X_shape |]. split; [exact H |].
  apply (forward_ignores_code_fractions ex_w ex_model ex_g 1 2 11 ex_X ex_X_frac
           ex_X_shape H).
Defined.

(** * Dropout in front of the sigmoid *)

Lemma nth_error_imap_from {A B : Type} (f : nat -> A -> B) (l : list A) :
  forall i n, nth_error (imap_from f i l) n = option_map (f (i + n)%nat) (nth_error l n).
Proof.
  induction l as [| a l IH]; intros i [| n]; simpl; try reflexivity.
  - now rewrite Nat.add_0_r.
  - rewrite IH. now replace (S i + n)%nat with (i + S n)%nat by lia.
Qed.

Lemma sigmoid_0 : sigmoid 0 = 1 / 2.
Proof. unfold sigmoid. rewrite Ropp_0, exp_0. lra. Qed.

Lemma dropout_elem_dropped q x drop :
  q <> 0 -> q = 1 \/ drop = true -> dropout_elem q true drop x = 0.
Proof.
  intros H0 H. unfold dropout_elem. simpl.
  destruct (Req_dec_T q 0); [contradiction |].
  destruct (Req_dec_T q 1); [reflexivity |].
  destruct H as [H | ->]; [contradiction | reflexivity].
Qed.

(** The entry [(b, t, j)] of what [emit] returns. *)
Lemma emit_entry w self g (Hs : tensor R 3) b t j (s : list (list R)) (v : list R) y :
  nth_error (emit w self g Hs) b = Some s -> nth_error s t = Some v ->
  nth_error v j = Some y ->
  exists hs h z,
    nth_error Hs b = Some hs /\ nth_error hs t = Some h
    /\ nth_error (linear_vec w (fc self) h) j = Some z
    /\ y = sigmoid (dropout_elem (p (linear_dropout self)) (training self)
                      (linear_mask g b t j) z).
Proof.
  unfold emit, Sigmoid_forward, Dropout_forward, dropout3, imap. simpl tmap.
  rewrite nth_error_map, nth_error_imap_from, nth_error_map. cbn [Nat.add].
  destruct (nth_error Hs b) as [hs |] eqn:E1; [| discriminate].
  cbn [option_map]. intros Hs'. inversion Hs' as [Hs'']; clear Hs' Hs''.
  rewrite nth_error_map, nth_error_imap_from, nth_error_map. cbn [Nat.add].
  destruct (nth_error hs t) as [h |] eqn:E2; [| discriminate].
  cbn [option_map]. intros Hv'. inversion Hv' as [Hv'']; clear Hv' Hv''.
  rewrite nth_error_map, nth_error_imap_from. cbn [Nat.add].
  destruct (nth_error (linear_vec w (fc self) h) j) as [z |] eqn:E3; [| discriminate].
  cbn [option_map]. intros Hy. inversion Hy.
  exists hs, h, z. repeat split; auto.
Qed.

(** Dropout sits between the linear layer and the sigmoid.  In
    training mode with a non-zero rate, every output entry whose draw zeroes
    it (all of them, when the rate is 1) is exactly 1/2, whatever the input
    and the parameters. *)
Theorem dropped_outputs_are_half :
  forall (w : weights) (self : DRSA) (g : draws) (X out : tensor R 3)
         (b t j : nat) (s : list (list R)) (v : list R) (y : R),
    forward w self g 3 X = Ok out ->
    training self = true ->
    p (linear_dropout self) <> 0 ->
    p (linear_dropout self) = 1 \/ linear_mask g b t j = true ->
    nth_error out b = Some s -> nth_error s t = Some v -> nth_error v j = Some y ->
    y = 1 / 2.
Proof.
  intros w self g X out b t j s v y Hout Htr Hp Hdrop Hs Hv Hy.
  apply forward_Ok_inv in Hout. subst out.
  destruct (emit_entry _ _ _ _ _ _ _ _ _ _ Hs Hv Hy) as (hs & h & z & _ & _ & _ & ->).
  rewrite Htr, dropout_elem_dropped by assumption.
  apply sigmoid_0.
Qed.

Lemma dropped_outputs_are_half_witness :
  forward cx_w cx_model cx_g 3 [[[0]]] = Ok [[[sigmoid 0]]]
  /\ training cx_model = true
  /\ p (linear_dropout cx_model) <> 0
  /\ (p (linear_dropout cx_model) = 1 \/ linear_mask cx_g 0 0 0 = true)
  /\ sigmoid 0 = 1 / 2.
Proof.
  assert (Hp : p (linear_dropout cx_model) <> 0) by (simpl; lra).
  split; [apply cx_forward_dropped |]. split; [reflexivity |].
  split; [exact Hp |]. split; [right; reflexivity |].
  apply (dropped_outputs_are_half cx_w cx_model cx_g [[[0]]] [[[sigmoid 0]]] 0 0 0
           [[sigmoid 0]] [sigmoid 0] (sigmoid 0) cx_forward_dropped eq_refl Hp
           (or_intror eq_refl) eq_refl eq_refl eq_refl).
Defined.

(** * Range of the hidden vectors and of the predictions *)

Lemma tanh_range (x : R) : -1 < tanh x < 1.
Proof.
  unfold tanh, sinh, cosh.
  pose proof (exp_pos x) as H1. pose proof (exp_pos (- x)) as H2.
  assert (Hc : 0 < (exp x + exp (- x)) / 2) by lra.
  split.
  - apply Rmult_lt_reg_r with ((exp x + exp (- x)) / 2); [exact Hc |].
    unfold Rdiv at 2. rewrite Rmult_assoc, Rinv_l by lra. lra.
  - apply Rmult_lt_reg_r with ((exp x + exp (- x)) / 2); [exact Hc |].
    unfold Rdiv at 1. rewrite Rmult_assoc, Rinv_l by lra. lra.
Qed.

Lemma lstm_cell_range w H lay x st :
  Forall (fun h => -1 < h < 1) (fst (lstm_cell w H lay x st)).
Proof.
  unfold lstm_cell. cbn [fst]. apply Forall_map, Forall_forall. intros j _.
  match goal with |- _ < sigmoid ?a * tanh ?b < _ =>
    pose proof (sigmoid_range a); pose proof (tanh_range b) end.
  nra.
Qed.

Lemma lstm_scan_range w H lay st xs :
  Forall (Forall (fun h => -1 < h < 1)) (lstm_scan (lstm_cell w H lay) st xs).
Proof.
  revert st. induction xs as [| x xs IH]; intros st; simpl; constructor.
  - apply lstm_cell_range.
  - apply IH.
Qed.

Lemma lstm_stack_range w H q training g hx (ls : list LSTMLayer) :
  ls <> [] ->
  forall l (X : tensor R 3), in_open_ball (lstm_stack w H q training g hx l ls X).
Proof.
  induction ls as [| lay ls IH]; intros Hne l X; [congruence |].
  simpl. destruct ls as [| lay' ls].
  - unfold lstm_layer, imap. apply imap_from_Forall. intros b s _.
    apply lstm_scan_range.
  - apply IH. discriminate.
Qed.

Lemma dot_from_bound row x :
  Forall (fun h => -1 < h < 1) x ->
  forall i,
  Rabs (dot_from row i x)
  <= fold_right Rplus 0 (map (fun k => Rabs (row k)) (seq i (length x))).
Proof.
  induction 1 as [| a x Ha _ IH]; intros i; simpl.
  - rewrite Rabs_R0. lra.
  - specialize (IH (S i)).
    pose proof (Rabs_triang (row i * a) (dot_from row (S i) x)) as Ht.
    rewrite Rabs_mult in Ht.
    pose proof (Rabs_pos (row i)) as Hr.
    assert (Hle : Rabs a <= 1) by (apply Rabs_le; lra).
    nra.
Qed.

Lemma sigmoid_le (x y : R) : x <= y -> sigmoid x <= sigmoid y.
Proof.
  intros Hxy. unfold sigmoid, Rdiv. rewrite !Rmult_1_l.
  pose proof (exp_pos (- x)) as Hx. pose proof (exp_pos (- y)) as Hy.
  apply Rinv_le_contravar; [lra |].
  destruct Hxy as [Hlt | ->]; [| lra].
  assert (exp (- y) < exp (- x)) by (apply exp_increasing; lra). lra.
Qed.

Lemma linear_vec_entry w l h j z :
  nth_error (linear_vec w l h) j = Some z ->
  z = dot (w (lin_weight l) j) h + w (lin_bias l) j O.
Proof.
  unfold linear_vec. rewrite nth_error_map, nth_error_seq.
  destruct (j <? out_features l)%nat; [| discriminate].
  cbn [option_map Nat.add]. intros H. now inversion H.
Qed.

Lemma dropout_elem_off q training drop x :
  training = false \/ q = 0 -> dropout_elem q training drop x = x.
Proof.
  intros [-> | ->]; unfold dropout_elem; [reflexivity |].
  destruct (negb training); [reflexivity |].
  destruct (Req_dec_T 0 0); [reflexivity | contradiction].
Qed.

(** The hidden vectors of the last recurrent layer lie strictly
    between -1 and 1, so the linear layer cannot produce a logit further
    from its bias than the absolute row sum of its weight.  Where the
    dropout after the linear layer does nothing (evaluation mode, or rate
    0), output entry [j] lies between [sigmoid (b_j - L_j)] and
    [sigmoid (b_j + L_j)], with [b_j] the bias and [L_j] the absolute row
    sum, whatever the input. *)
Theorem prediction_bounds :
  forall (w : weights) (self : DRSA) (g : draws) (X out : tensor R 3)
         (b t j : nat) (s : list (list R)) (v : list R) (y : R),
    wired self ->
    training self = false \/ p (linear_dropout self) = 0 ->
    forward w self g 3 X = Ok out ->
    nth_error out b = Some s -> nth_error s t = Some v -> nth_error v j = Some y ->
    sigmoid (w (lin_bias (fc self)) j O - row_l1 w (fc self) j) <= y
    /\ y <= sigmoid (w (lin_bias (fc self)) j O + row_l1 w (fc self) j).
Proof.
  intros w self g X out b t j s v y [Hin Hne] Hoff Hout Hs Hv Hy.
  apply forward_Ok_inv in Hout. subst out.
  destruct (emit_entry _ _ _ _ _ _ _ _ _ _ Hs Hv Hy)
    as (hs & h & z & Hhs & Hh & Hz & ->).
  rewrite (dropout_elem_off _ _ _ _ Hoff).
  apply linear_vec_entry in Hz. subst z.
  set (U := map (map (fuse_vec w (embeddings self))) X) in *.
  assert (Hlen : length h = in_features (fc self)).
  { pose proof (lstm_stack_widths w (hidden_size (lstm self)) (lstm_dropout (lstm self))
                  (training self) g None _ Hne 0%nat U) as HW.
    fold (encode w self g None U) in HW.
    rewrite Forall_forall in HW. specialize (HW hs (nth_error_In _ _ Hhs)).
    rewrite Forall_forall in HW. rewrite Hin. exact (HW h (nth_error_In _ _ Hh)). }
  assert (Hrg : Forall (fun x => -1 < x < 1) h).
  { pose proof (lstm_stack_range w (hidden_size (lstm self)) (lstm_dropout (lstm self))
                  (training self) g None _ Hne 0%nat U) as HR.
    fold (encode w self g None U) in HR. unfold in_open_ball in HR.
    rewrite Forall_forall in HR. specialize (HR hs (nth_error_In _ _ Hhs)).
    rewrite Forall_forall in HR. exact (HR h (nth_error_In _ _ Hh)). }
  pose proof (dot_from_bound (w (lin_weight (fc self)) j) h Hrg 0%nat) as Hb.
  rewrite Hlen in Hb. fold (row_l1 w (fc self) j) in Hb.
  fold (dot (w (lin_weight (fc self)) j) h) in Hb.
  pose proof (Rle_abs (dot (w (lin_weight (fc self)) j) h)) as Hup.
  pose proof (Rle_abs (- dot (w (lin_weight (fc self)) j) h)) as Hlo.
  rewrite Rabs_Ropp in Hlo.
  split; apply sigmoid_le; lra.
Qed.

Lemma ex_forward :
  forward ex_w ex_model ex_g 3 ex_X
  = Ok (emit ex_w ex_model ex_g
          (encode ex_w ex_model ex_g None
             (map (map (fuse_vec ex_w (embeddings ex_model))) ex_X))).
Proof.
  apply (forward_valid ex_w ex_model ex_g (B:=1) (T:=2) (F:=11)).
  - apply ex_model_wired.
  - apply (has_shape3 1 2 11 ex_X), ex_X_shape.
  - lia.
  - simpl. lia.
  - apply ex_X_in_vocab.
  - reflexivity.
Qed.

Lemma prediction_bounds_witness :
  wired ex_model
  /\ (training ex_model = false \/ p (linear_dropout ex_model) = 0)
  /\ exists (out : tensor R 3) (s : list (list R)) (v : list R) (y : R),
       forward ex_w ex_model ex_g 3 ex_X = Ok out
       /\ nth_error out 0 = Some s /\ nth_error s 0 = Some v /\ nth_error v 0 = Some y
       /\ sigmoid (ex_w (lin_bias (fc ex_model)) 0%nat 0%nat - row_l1 ex_w (fc ex_model) 0)
          <= y
       /\ y <= sigmoid (ex_w (lin_bias (fc ex_model)) 0%nat 0%nat
                        + row_l1 ex_w (fc ex_model) 0).
Proof.
  split; [apply ex_model_wired |]. split; [right; reflexivity |].
  exists (emit ex_w ex_model ex_g
            (encode ex_w ex_model ex_g None
               (map (map (fuse_vec ex_w (embeddings ex_model))) ex_X))).
  eexists. eexists. eexists.
  split; [apply ex_forward |].
  assert (H1 : forall A (a : A) l, nth_error (a :: l) 0 = Some a) by reflexivity.
  split; [apply H1 |]. split; [apply H1 |]. split; [apply H1 |].
  eapply (prediction_bounds ex_w ex_model ex_g ex_X _ 0 0 0 _ _ _ ex_model_wired
            (or_intror eq_refl) ex_forward); apply H1.
Defined.

(** * The list that [parameters()] yields *)

Lemma dedup_ext (l : list pid) :
  forall s1 s2, (forall x, In x l -> (In x s1 <-> In x s2)) -> dedup s1 l = dedup s2 l.
Proof.
  induction l as [| x l IH]; intros s1 s2 H; simpl; [reflexivity |].
  destruct (in_dec Nat.eq_dec x s1) as [H1 | H1];
    destruct (in_dec Nat.eq_dec x s2) as [H2 | H2].
  - apply IH. intros y Hy. apply H. now right.
  - exfalso. apply H2, (H x); [now left | exact H1].
  - exfalso. apply H1, (H x); [now left | exact H2].
  - f_equal. apply IH. intros y Hy. simpl.
    specialize (H y (or_intror Hy)). tauto.
Qed.

Lemma dedup_app (l1 l2 : list pid) :
  forall seen, dedup seen (l1 ++ l2) = dedup seen l1 ++ dedup (l1 ++ seen) l2.
Proof.
  induction l1 as [| x l1 IH]; intros seen; simpl; [reflexivity |].
  destruct (in_dec Nat.eq_dec x seen) as [Hx | Hx].
  - rewrite IH. f_equal. apply dedup_ext. intros y _. simpl.
    rewrite !in_app_iff. split; [tauto |]. intros [<- | H]; tauto.
  - simpl. rewrite IH. do 2 f_equal. apply dedup_ext. intros y _.
    simpl. rewrite !in_app_iff. simpl. tauto.
Qed.

Lemma dedup_fresh (l : list pid) :
  NoDup l -> forall seen, (forall x, In x l -> ~ In x seen) -> dedup seen l = l.
Proof.
  induction 1 as [| x l Hx _ IH]; intros seen H; simpl; [reflexivity |].
  destruct (in_dec Nat.eq_dec x seen) as [Hin | _].
  - exfalso. apply (H x); [now left | exact Hin].
  - f_equal. apply IH. intros y Hy [<- | Hs]; [contradiction |].
    apply (H y); [now right | exact Hs].
Qed.

Lemma dedup_seen (l : list pid) :
  forall seen, (forall x, In x l -> In x seen) -> dedup seen l = [].
Proof.
  induction l as [| x l IH]; intros seen H; simpl; [reflexivity |].
  destruct (in_dec Nat.eq_dec x seen) as [_ | Hx].
  - apply IH. intros y Hy. apply H. now right.
  - exfalso. apply Hx, H. now left.
Qed.

Lemma alloc_layers_seq (n : nat) :
  forall s ls s', alloc_layers n s = Ok (ls, s') ->
  flat_map layer_parameters ls = seq s (4 * n) /\ s' = (s + 4 * n)%nat.
Proof.
  induction n as [| n IH]; intros s ls s' H.
  - inversion H; subst. simpl. split; [reflexivity | lia].
  - simpl in H. unfold bindM, alloc in H.
    destruct (alloc_layers n (S (S (S (S s))))) as [[ls0 s0] |] eqn:Hn; [| discriminate].
    unfold ret in H. inversion H; subst ls s'. clear H.
    destruct (IH _ _ _ Hn) as [Hls Hs0]. subst s0.
    cbn [flat_map]. rewrite Hls. unfold layer_parameters. cbn [weight_ih weight_hh bias_ih bias_hh].
    split; [| lia].
    replace (4 * S n)%nat with (S (S (S (S (4 * n))))) by lia. reflexivity.
Qed.

Lemma nn_LSTM_blocks isz hsz nl q s l s' :
  nn_LSTM isz hsz nl q s = Ok (l, s') ->
  flat_map layer_parameters (lstm_layers l) = seq s (4 * Z.to_nat nl)
  /\ s' = (s + 4 * Z.to_nat nl)%nat.
Proof.
  unfold nn_LSTM, raise.
  destruct (negb (prob_ok q)); [discriminate |].
  destruct (hsz <=? 0)%Z; [discriminate |].
  destruct (nl <=? 0)%Z; [discriminate |].
  destruct (isz <=? 0)%Z; [discriminate |].
  unfold bindM.
  destruct (alloc_layers (Z.to_nat nl) s) as [[ls s0] |] eqn:Ha; [| discriminate].
  unfold ret. intros H. inversion H; subst l s'. simpl.
  exact (alloc_layers_seq _ _ _ _ Ha).
Qed.

Lemma nn_Linear_blocks i o s l s' :
  nn_Linear i o s = Ok (l, s') ->
  lin_weight l = s /\ lin_bias l = S s /\ s' = S (S s).
Proof.
  unfold nn_Linear, raise.
  destruct ((i <? 0)%Z || (o <? 0)%Z)%bool; [discriminate |].
  unfold bindM, alloc, ret. intros H. inversion H; subst. auto.
Qed.

Lemma nn_Dropout_blocks q s d s' : nn_Dropout q s = Ok (d, s') -> s' = s.
Proof.
  unfold nn_Dropout, raise, ret. destruct (prob_ok q); [| discriminate].
  intros H. now inversion H.
Qed.

(** The blocks the constructors allocate: four per recurrent layer, then
    the weight and the bias of the linear layer, numbered consecutively. *)
Lemma own_blocks isz h L qL o qD s l s1 f s2 d s3 :
  nn_LSTM isz h L qL s = Ok (l, s1) ->
  nn_Linear h o s1 = Ok (f, s2) ->
  nn_Dropout qD s2 = Ok (d, s3) ->
  flat_map layer_parameters (lstm_layers l) ++ [lin_weight f; lin_bias f]
  = seq s (4 * Z.to_nat L + 2)
  /\ s3 = (s + (4 * Z.to_nat L + 2))%nat.
Proof.
  intros Hl Hf Hd.
  apply nn_LSTM_blocks in Hl. apply nn_Linear_blocks in Hf. apply nn_Dropout_blocks in Hd.
  destruct Hl as [-> ->]. destruct Hf as (-> & -> & ->). subst s3.
  split; [| lia].
  rewrite seq_app. f_equal.
Qed.

(** The blocks [parameters()] yields for the class of [part_000]. *)
Lemma DRSA_init_parameters n h L embs o qL qD s m s' :
  Forall (fun e => (emb_weight e < s)%nat) embs ->
  DRSA_init n h L embs o qL qD s = Ok (m, s') ->
  s' = (s + (4 * Z.to_nat L + 2))%nat
  /\ parameters m = seq s (4 * Z.to_nat L + 2) ++ dedup [] (map emb_weight embs).
Proof.
  intros Hold H.
  unfold DRSA_init, bindM in H.
  destruct (nn_LSTM _ _ _ _ s) as [[l s1] |] eqn:Hl; [| discriminate].
  destruct (nn_Linear _ _ s1) as [[f s2] |] eqn:Hf; [| discriminate].
  destruct (nn_Dropout _ s2) as [[d s3] |] eqn:Hd; [| discriminate].
  unfold ret in H. inversion H; subst m s'. clear H.
  destruct (own_blocks _ _ _ _ _ _ _ _ _ _ _ _ _ Hl Hf Hd) as [HA Hs3].
  split; [exact Hs3 |].
  unfold parameters, named_children.
  cbn [params_to_train lstm fc linear_dropout flat_map snd app].
  rewrite module_list_parameters, flat_map_app, embeddings_parameters.
  cbn [module_parameters flat_map app]. rewrite !app_nil_r.
  set (A := seq s (4 * Z.to_nat L + 2)) in *.
  set (E := map emb_weight embs).
  replace (flat_map layer_parameters (lstm_layers l)
           ++ lin_weight f :: lin_bias f
              :: E ++ flat_map layer_parameters (lstm_layers l)
                 ++ [lin_weight f; lin_bias f])
    with (A ++ (E ++ A)).
  2:{ rewrite <- HA, <- app_assoc. reflexivity. }
  assert (HEA : forall x, In x E -> ~ In x A).
  { intros x Hx Hx'. unfold E in Hx. apply in_map_iff in Hx.
    destruct Hx as (e & <- & He). rewrite Forall_forall in Hold.
    specialize (Hold e He). unfold A in Hx'. apply in_seq in Hx'. lia. }
  rewrite dedup_app, dedup_app, app_nil_r.
  rewrite (dedup_fresh A (seq_NoDup _ _)) by (intros x _ []).
  rewrite (dedup_seen A) by (intros x Hx; apply in_app_iff; now right).
  rewrite app_nil_r. f_equal.
  apply dedup_ext. intros x Hx. split; [intros Hx'; now apply HEA in Hx | intros []].
Qed.

(** What [parameters()] yields for a freshly constructed model whose
    embedding tables were created before it.  Both constructors allocate
    [4 * n_layers + 2] consecutive blocks.  For the class of [part_000],
    [parameters()] is these blocks in allocation order followed by the
    embedding tables in list order, each once, although [lstm] and [fc] are
    registered twice (as attributes and inside [params_to_train]).  For the
    class of [notebooks/01_model.ipynb] it is the allocated blocks alone. *)
Theorem parameters_listing :
  forall (n h L : Z) (embs : list Embedding) (o : Z) (qL qD : R) (s : pid)
         (m : DRSA) (s' : pid),
    Forall (fun e => (emb_weight e < s)%nat) embs ->
    (DRSA_init n h L embs o qL qD s = Ok (m, s') ->
     s' = (s + (4 * Z.to_nat L + 2))%nat
     /\ parameters m = seq s (4 * Z.to_nat L + 2) ++ dedup [] (map emb_weight embs))
    /\ (DRSA_init_01 n h L embs o qL qD s = Ok (m, s') ->
        s' = (s + (4 * Z.to_nat L + 2))%nat
        /\ parameters m = seq s (4 * Z.to_nat L + 2)).
Proof.
  intros n h L embs o qL qD s m s' Hold. split; intros H.
  - now apply (DRSA_init_parameters n h L embs o qL qD s m s').
  - unfold DRSA_init_01, bindM in H.
    destruct (nn_LSTM _ _ _ _ s) as [[l s1] |] eqn:Hl; [| discriminate].
    destruct (nn_Linear _ _ s1) as [[f s2] |] eqn:Hf; [| discriminate].
    destruct (nn_Dropout _ s2) as [[d s3] |] eqn:Hd; [| discriminate].
    unfold ret in H. inversion H; subst m s'. clear H.
    destruct (own_blocks _ _ _ _ _ _ _ _ _ _ _ _ _ Hl Hf Hd) as [HA Hs3].
    split; [exact Hs3 |].
    unfold parameters, named_children.
    cbn [params_to_train lstm fc linear_dropout flat_map snd app module_parameters].
    rewrite HA. apply dedup_fresh; [apply seq_NoDup | intros x _ []].
Qed.

Lemma parameters_listing_witness :
  Forall (fun e => (emb_weight e < 1)%nat) [ex_emb]
  /\ parameters ex_model
     = seq 1 (4 * Z.to_nat 1 + 2) ++ dedup [] (map emb_weight [ex_emb]).
Proof.
  assert (H : Forall (fun e => (emb_weight e < 1)%nat) [ex_emb]).
  { apply Forall_cons; [simpl; lia | apply Forall_nil]. }
  split; [exact H |].
  apply (proj1 (parameters_listing 11 2 1 [ex_emb] 1 0 0 1%nat ex_model 7%nat H)
           ex_model_constructed).
Defined.

(** * The training cell of [part_000] *)

Lemma idx_entries (B : nat) (idx : tensor Z 3) :
  dims3 B 1 1 idx ->
  exists zs, idx = map (fun z => [[z]]) zs /\ length zs = B.
Proof.
  intros [HB H]. revert B HB.
  induction H as [| s idx [Hs Hv] _ IH]; intros B HB.
  - exists []. auto.
  - destruct s as [| v [| ? ?]]; try discriminate.
    inversion Hv as [| ? ? Hlen _]; subst.
    destruct v as [| z [| ? ?]]; try discriminate.
    destruct (IH _ eq_refl) as (zs & -> & Hzs).
    exists (z :: zs). simpl in *. split; [reflexivity | lia].
Qed.

Lemma bcast_mul_steps (T : nat) (z : R) :
  bcast_mul 2 (repeat [1] T) [[z]] = Ok (repeat [1 * z] T).
Proof.
  destruct T as [| [| T]]; try reflexivity.
  change (bcast_mul 2 (repeat [1] (S (S T))) [[z]])
    with (mapM (fun x => bcast_mul 1 x [z]) (repeat [1] (S (S T)))).
  rewrite (mapM_ok _ (fun _ => [1 * z])).
  - now rewrite map_repeat.
  - apply Forall_forall. intros x Hx. apply repeat_spec in Hx. now subst x.
Qed.

Lemma zipM_repeat {A : Type} (f : A -> A -> result A) (a : A) (h g : Z -> A) (zs : list Z) :
  (forall z, f a (h z) = Ok (g z)) ->
  zipM f (repeat a (length zs)) (map h zs) = Ok (map g zs).
Proof.
  intros H. induction zs as [| z zs IH]; simpl; [reflexivity |].
  now rewrite H, IH.
Qed.

Lemma torch_mul_idx (T : nat) (zs : list Z) :
  torch_mul (torch_ones (length zs) T 1) (map (fun z => [[z]]) zs)
  = Ok (map (fun z => repeat [1 * IZR z] T) zs).
Proof.
  unfold torch_mul, torch_ones. simpl tmap. rewrite map_map. cbn [map repeat].
  destruct zs as [| z1 [| z2 zs]].
  - reflexivity.
  - change (b <- bcast_mul 2 (repeat [1] T) [[IZR z1]] ;; bs <- Ok [] ;; Ok (b :: bs)
            = Ok [repeat [1 * IZR z1] T]).
    now rewrite bcast_mul_steps.
  - change (zipM (bcast_mul 2) (repeat (repeat [1] T) (length (z1 :: z2 :: zs)))
              (map (fun z => [[IZR z]]) (z1 :: z2 :: zs))
            = Ok (map (fun z => repeat [1 * IZR z] T) (z1 :: z2 :: zs))).
    apply zipM_repeat. intros z. apply bcast_mul_steps.
Qed.

Lemma zipM_cons_repeat (x : R) (s : list (list R)) :
  zipM (fun a b => Ok (a ++ b)) (repeat [x] (length s)) s = Ok (map (cons x) s).
Proof. induction s as [| v s IH]; simpl; [reflexivity | now rewrite IH]. Qed.

Lemma cat_idx_data (T : nat) (c : Z -> R) (zs : list Z) :
  forall data : tensor R 3,
  length data = length zs -> Forall (fun s => length s = T) data ->
  cat_last 2 (map (fun z => repeat [c z] T) zs) data
  = Ok (map (fun zs => map (cons (c (fst zs))) (snd zs)) (combine zs data)).
Proof.
  induction zs as [| z zs IH]; intros [| s data] Hlen HT; try discriminate.
  - reflexivity.
  - inversion HT as [| ? ? Hs HT']; subst.
    specialize (IH data (eq_add_S _ _ Hlen) HT').
    simpl in *. rewrite zipM_cons_repeat. cbn [bind]. now rewrite IH.
Qed.

(** The input of the cell, written directly: the code of each sequence in
    column 0 of every time step, then the columns of [data]. *)
Lemma cell_input_ok (B T F : nat) (zs : list Z) (data : tensor R 3) :
  dims3 B T F data -> length zs = B ->
  cell_input B T (map (fun z => [[z]]) zs) data
  = Ok (map (fun zs => map (cons (1 * IZR (fst zs))) (snd zs)) (combine zs data)).
Proof.
  intros [HB HX] Hzs. unfold cell_input. rewrite <- Hzs, torch_mul_idx. cbn [bind torch_cat].
  apply (cat_idx_data T (fun z => 1 * IZR z)); [lia |].
  eapply Forall_impl; [| exact HX]. now intros s [Hs _].
Qed.

Lemma cell_input_dims (B T F : nat) (zs : list Z) (data : tensor R 3) :
  dims3 B T F data -> length zs = B ->
  dims3 B T (S F)
    (map (fun zs => map (cons (1 * IZR (fst zs))) (snd zs)) (combine zs data)).
Proof.
  intros [HB HX] Hzs. split.
  - rewrite length_map, length_combine. lia.
  - apply Forall_map, Forall_forall. intros [z s] Hin. apply in_combine_r in Hin.
    rewrite Forall_forall in HX. destruct (HX s Hin) as [Hs Hv]. cbn [fst snd].
    split; [now rewrite length_map |].
    apply Forall_map. eapply Forall_impl; [| exact Hv]. intros v Hlen.
    simpl. now rewrite Hlen.
Qed.

Lemma cell_input_in_vocab (e : Embedding) (zs : list Z) (data : tensor R 3) :
  Forall (fun z => (0 <= z < Z.of_nat (num_embeddings e))%Z) zs ->
  in_vocab [e]
    (map (fun zs => map (cons (1 * IZR (fst zs))) (snd zs)) (combine zs data)).
Proof.
  intros Hz. unfold in_vocab.
  apply Forall_map, Forall_forall. intros [z s] Hin. apply in_combine_l in Hin.
  rewrite Forall_forall in Hz. specialize (Hz z Hin). cbn [fst snd].
  apply Forall_map, Forall_forall. intros v _ i e' x He Hx.
  destruct i as [| i]; [| destruct i; discriminate].
  simpl in He, Hx. inversion He; subst e'. inversion Hx; subst x.
  now rewrite Rmult_1_l, Rtrunc_IZR.
Qed.



(** * The exception of a call does not depend on the parameters *)

Lemma forward_unfold w self g (X : tensor R 3) :
  forward w self g 3 X
  = (U <- fuse w self 0 X ;;
     if width_ok (input_size (lstm self)) U && steps_ok U
     then if width_ok (in_features (fc self)) (encode w self g None U)
          then Ok (emit w self g (encode w self g None U))
          else Raise RuntimeError
     else Raise RuntimeError).
Proof.
  unfold forward. destruct (fuse w self 0 X) as [U | e]; [| reflexivity].
  cbn [bind]. unfold float, LSTM_forward. cbn [Nat.add].
  destruct (width_ok (input_size (lstm self)) U && steps_ok U); [| reflexivity].
  cbn [bind fst]. unfold Linear_forward, encode.
  destruct (width_ok (in_features (fc self)) _); reflexivity.
Qed.

Lemma exception_of_bind {A A' B B' : Type} (c : result A) (c' : result A')
  (k : A -> result B) (k' : A' -> result B') :
  exception_of c = exception_of c' ->
  (forall a a', exception_of (k a) = exception_of (k' a')) ->
  exception_of (bind c k) = exception_of (bind c' k').
Proof.
  intros Hc Hk. destruct c as [a | e]; destruct c' as [a' | e'];
    simpl in *; try discriminate; auto.
Qed.

Lemma exception_of_mapM {A B B' : Type} (f : A -> result B) (f' : A -> result B')
  (l : list A) :
  (forall a, exception_of (f a) = exception_of (f' a)) ->
  exception_of (mapM f l) = exception_of (mapM f' l).
Proof.
  intros H. induction l as [| a l IH]; simpl; [reflexivity |].
  apply exception_of_bind; [apply H |]. intros b b'.
  apply exception_of_bind; [exact IH |]. reflexivity.
Qed.

Lemma exception_of_mapM_enum {A B B' : Type} (f : nat -> A -> result B)
  (f' : nat -> A -> result B') (l : list A) :
  (forall i a, exception_of (f i a) = exception_of (f' i a)) ->
  forall i, exception_of (mapM_enum f i l) = exception_of (mapM_enum f' i l).
Proof.
  intros H. induction l as [| a l IH]; intros i; simpl; [reflexivity |].
  apply exception_of_bind; [apply H |]. intros b b'.
  apply exception_of_bind; [apply IH |]. reflexivity.
Qed.

Lemma Embedding_forward_exception w w' e r :
  forall Z0 : tensor Z r,
  exception_of (Embedding_forward w e r Z0) = exception_of (Embedding_forward w' e r Z0).
Proof.
  induction r as [| r IH]; simpl; intros Z0.
  - unfold embedding_lookup. destruct (_ && _)%bool; reflexivity.
  - apply exception_of_mapM. exact IH.
Qed.

(** Which exception the fusion step raises, if any, is decided by the
    input and the sizes of the tables. *)
Lemma fuse_exception w w' self (X : tensor R 3) :
  exception_of (fuse w self 0 X) = exception_of (fuse w' self 0 X).
Proof.
  destruct (fuse_cases w self X) as [[Hc HF] | [Hc (e & HF & _)]];
    destruct (fuse_cases w' self X) as [[Hc' HF'] | [Hc' (e' & HF' & _)]];
    try contradiction; rewrite HF, HF'; [reflexivity |].
  assert (HE : exception_of
                 (mapM_enum (fun i emb =>
                               Xi <- select2 i X ;; Embedding_forward w emb 2 (long 2 Xi))
                            0 (embeddings self))
               = exception_of
                   (mapM_enum (fun i emb =>
                                 Xi <- select2 i X ;; Embedding_forward w' emb 2 (long 2 Xi))
                              0 (embeddings self))).
  { apply exception_of_mapM_enum. intros i emb.
    destruct (select2 i X) as [Xi | e0]; [| reflexivity].
    cbn [bind]. apply Embedding_forward_exception. }
  unfold fuse in HF, HF'.
  destruct (mapM_enum _ 0 (embeddings self)) as [Es | e0] eqn:H1.
  - apply lookups_Ok_codes in H1. contradiction.
  - destruct (mapM_enum (fun i emb => Xi <- select2 i X ;; Embedding_forward w' emb _ _)
                0 (embeddings self)) as [Es' | e0'] eqn:H2.
    + apply lookups_Ok_codes in H2. contradiction.
    + cbn [bind] in HF, HF'. simpl in HE. congruence.
Qed.

(** * Embedding rows that the input does not address *)

Lemma fuse_vec_rows w w' embs (v : list R) :
  (forall k e j, nth_error embs k = Some e ->
                 w (emb_weight e) (Z.to_nat (Rtrunc (nth k v 0))) j
                 = w' (emb_weight e) (Z.to_nat (Rtrunc (nth k v 0))) j) ->
  fuse_vec w embs v = fuse_vec w' embs v.
Proof.
  intros H. unfold fuse_vec, lookups_from. f_equal. f_equal.
  apply imap_from_ext. intros k e Hk. cbn [Nat.add].
  unfold embedding_row. apply map_ext. intros j. now apply H.
Qed.

(** What [forward] does with the fused features reads the recurrent and
    linear blocks only. *)
Lemma forward_tail_ext w w' self g (U : tensor R 3) :
  agree_on (flat_map layer_parameters (lstm_layers (lstm self))
            ++ [lin_weight (fc self); lin_bias (fc self)]) w w' ->
  emit w self g (encode w self g None U) = emit w' self g (encode w' self g None U).
Proof.
  intros Hw. apply agree_on_app in Hw. destruct Hw as [Hlstm Hfc].
  unfold encode. rewrite (lstm_stack_ext w w' _ _ _ _ _ _ Hlstm).
  unfold emit. do 2 f_equal. apply map_ext. intros s. apply map_ext. intros h.
  unfold linear_vec. apply map_ext. intros j. unfold dot.
  rewrite (dot_from_ext (w (lin_weight (fc self)) j) (w' (lin_weight (fc self)) j));
    [| intros i; apply Hfc; simpl; auto].
  f_equal. apply Hfc. simpl. auto.
Qed.

(** [forward] reads an embedding table only at the rows that the
    categorical codes of its input address: two stores that agree on the
    recurrent and linear blocks and on those rows give the same result,
    output or exception.  The rows of categories absent from a batch have
    no influence on its predictions. *)
Theorem unaddressed_rows_not_read :
  forall (w w' : weights) (self : DRSA) (g : draws) (B T F : nat) (X : tensor R 3),
    has_shape [B; T; F] 3 X ->
    (forall q i j,
        In q (flat_map layer_parameters (lstm_layers (lstm self))
              ++ [lin_weight (fc self); lin_bias (fc self)])
        \/ row_addressed (embeddings self) X q i ->
        w q i j = w' q i j) ->
    forward w self g 3 X = forward w' self g 3 X.
Proof.
  intros w w' self g B T F X _ H.
  assert (HU : map (map (fuse_vec w (embeddings self))) X
               = map (map (fuse_vec w' (embeddings self))) X).
  { apply map_ext_in. intros s Hs. apply map_ext_in. intros v Hv.
    apply fuse_vec_rows. intros k e j Hk. apply H. right.
    exists k, e, s, v. auto. }
  assert (Hag : agree_on (flat_map layer_parameters (lstm_layers (lstm self))
                          ++ [lin_weight (fc self); lin_bias (fc self)]) w w').
  { intros q i j Hq. apply H. now left. }
  assert (HF : fuse w self 0 X = fuse w' self 0 X).
  { pose proof (fuse_exception w w' self X) as HE.
    destruct (fuse_cases w self X) as [[Hc H1] | [Hc (e & H1 & _)]];
      destruct (fuse_cases w' self X) as [[Hc' H2] | [Hc' (e' & H2 & _)]];
      try contradiction; rewrite H1, H2 in *.
    - now rewrite HU.
    - simpl in HE. congruence. }
  rewrite !forward_unfold, HF.
  destruct (fuse w' self 0 X) as [U | e]; [| reflexivity]. cbn [bind].
  rewrite (forward_tail_ext w w' self g U Hag).
  unfold encode.
  now rewrite (lstm_stack_ext w w' _ _ _ _ _ _ (proj1 (agree_on_app _ _ _ _ Hag))).
Qed.

Lemma unaddressed_rows_not_read_witness :
  has_shape [1; 2; 11]%nat 3 ex_X
  /\ (forall q i j,
        In q (flat_map layer_parameters (lstm_layers (lstm ex_model))
              ++ [lin_weight (fc ex_model); lin_bias (fc ex_model)])
        \/ row_addressed (embeddings ex_model) ex_X q i ->
        ex_w q i j = ex_w9 q i j)
  /\ forward ex_w ex_model ex_g 3 ex_X = forward ex_w9 ex_model ex_g 3 ex_X.
Proof.
  assert (H : forall q i j,
             In q (flat_map layer_parameters (lstm_layers (lstm ex_model))
                   ++ [lin_weight (fc ex_model); lin_bias (fc ex_model)])
             \/ row_addressed (embeddings ex_model) ex_X q i ->
             ex_w q i j = ex_w9 q i j).
  { intros q i j [Hq | (k & e & s & v & Hk & He & Hs & Hv & Hi)]; unfold ex_w, ex_w9.
    - simpl in Hq. repeat (destruct Hq as [<- | Hq]; [reflexivity |]). contradiction.
    - destruct k as [| k]; [| destruct k; discriminate].
      destruct Hs as [<- | []].
      destruct Hv as [<- | [<- | []]]; simpl nth in Hi.
      + change 3 with (IZR 3) in Hi. rewrite Rtrunc_IZR in Hi. subst i.
        now rewrite andb_false_r.
      + change 4 with (IZR 4) in Hi. rewrite Rtrunc_IZR in Hi. subst i.
        now rewrite andb_false_r. }
  split; [apply ex_X_shape |]. split; [exact H |].
  apply (unaddressed_rows_not_read ex_w ex_w9 ex_model ex_g 1 2 11 ex_X ex_X_shape H).
Defined.

(** * Acceptance of an input does not depend on the parameters *)

Lemma forallb_map {A B : Type} (f : B -> bool) (f' : A -> bool) (h : A -> B) (l : list A) :
  (forall a, f (h a) = f' a) -> forallb f (map h l) = forallb f' l.
Proof.
  intros H. induction l as [| a l IH]; simpl; [reflexivity | now rewrite H, IH].
Qed.

Lemma width_ok_widths n (Y Y' : tensor R 3) :
  map (map (length (A:=R))) Y = map (map (length (A:=R))) Y' ->
  width_ok n Y = width_ok n Y'.
Proof.
  intros H.
  assert (E : forall Z0 : tensor R 3,
             forallb (forallb (fun l => l =? n)%nat) (map (map (length (A:=R))) Z0)
             = width_ok n Z0).
  { intros Z0. unfold width_ok. apply forallb_map. intros s. now apply forallb_map. }
  now rewrite <- (E Y), <- (E Y'), H.
Qed.

Lemma lstm_scan_widths w H lay st xs :
  map (length (A:=R)) (lstm_scan (lstm_cell w H lay) st xs) = repeat H (length xs).
Proof.
  revert st. induction xs as [| x xs IH]; intros st; simpl; [reflexivity |].
  now rewrite IH, length_map, length_seq.
Qed.

Lemma lstm_layer_skeleton w H hx l lay (X : tensor R 3) :
  map (map (length (A:=R))) (lstm_layer w H hx l lay X)
  = map (repeat H) (map (length (A:=list R)) X).
Proof.
  unfold lstm_layer, imap. rewrite map_imap_from, map_map.
  rewrite <- (imap_from_id (fun _ a => a) (map _ X) (fun _ _ => eq_refl) 0%nat).
  rewrite imap_from_map. apply imap_from_ext. intros b s _. apply lstm_scan_widths.
Qed.

Lemma lstm_layer_lengths w H hx l lay (X : tensor R 3) :
  map (length (A:=list R)) (lstm_layer w H hx l lay X) = map (length (A:=list R)) X.
Proof.
  unfold lstm_layer, imap. rewrite map_imap_from.
  rewrite <- (imap_from_id (fun _ a => a) (map _ X) (fun _ _ => eq_refl) 0%nat).
  rewrite imap_from_map. apply imap_from_ext. intros b s _.
  apply (proj1 (lstm_scan_dims w H lay _ s)).
Qed.

Lemma dropout3_lengths q training mask (X : tensor R 3) :
  map (length (A:=list R)) (dropout3 q training mask X) = map (length (A:=list R)) X.
Proof.
  unfold dropout3, imap. rewrite map_imap_from.
  rewrite <- (imap_from_id (fun _ a => a) (map _ X) (fun _ _ => eq_refl) 0%nat).
  rewrite imap_from_map. apply imap_from_ext. intros b s _. apply imap_from_length.
Qed.

Lemma lstm_stack_skeleton w H q training g hx ls :
  ls <> [] ->
  forall l (X : tensor R 3),
  map (map (length (A:=R))) (lstm_stack w H q training g hx l ls X)
  = map (repeat H) (map (length (A:=list R)) X).
Proof.
  induction ls as [| lay ls IH]; intros Hne l X; [congruence |].
  simpl. destruct ls as [| lay' ls].
  - apply lstm_layer_skeleton.
  - rewrite IH by discriminate. now rewrite dropout3_lengths, lstm_layer_lengths.
Qed.

(** The vector lengths of the encoder's output are those of its input
    (no layer) or the hidden size (one layer or more), whatever the store,
    the mode and the draws. *)
Lemma encode_skeleton w w' self mode g g' (U U' : tensor R 3) :
  map (map (length (A:=R))) U = map (map (length (A:=R))) U' ->
  map (map (length (A:=R))) (encode w self g None U)
  = map (map (length (A:=R))) (encode w' (DRSA_train mode self) g' None U').
Proof.
  intros HU. unfold encode. cbn [lstm DRSA_train training].
  destruct (lstm_layers (lstm self)) as [| lay ls] eqn:Hls; [exact HU |].
  rewrite !lstm_stack_skeleton by discriminate.
  f_equal. apply (f_equal (map (length (A:=nat)))) in HU.
  rewrite !map_map in HU.
  rewrite (map_ext _ (length (A:=list R)) (fun s => length_map _ s) U) in HU.
  now rewrite (map_ext _ (length (A:=list R)) (fun s => length_map _ s) U') in HU.
Qed.

(** Whether [forward] returns, and which exception it raises when it
    does not, is decided by the input and the dimensions of the model: it is
    the same for every store of parameter values, in either mode and for any
    dropout draws.  A training step cannot make the model reject an input it
    accepted before. *)
Theorem forward_outcome_independent :
  forall (w w' : weights) (self : DRSA) (mode : bool) (g g' : draws) (B T F : nat)
         (X : tensor R 3),
    has_shape [B; T; F] 3 X ->
    exception_of (forward w self g 3 X)
    = exception_of (forward w' (DRSA_train mode self) g' 3 X).
Proof.
  intros w w' self mode g g' B T F X _.
  rewrite !forward_unfold.
  change (fuse w' (DRSA_train mode self) 0 X) with (fuse w' self 0 X).
  cbn [lstm fc DRSA_train].
  pose proof (fuse_exception w w' self X) as HE.
  destruct (fuse_cases w self X) as [[Hc HF] | [Hc (e & HF & _)]];
    destruct (fuse_cases w' self X) as [[Hc' HF'] | [Hc' (e' & HF' & _)]];
    try contradiction; rewrite HF, HF' in *; cbn [bind]; [| exact HE].
  assert (HU : map (map (length (A:=R))) (map (map (fuse_vec w (embeddings self))) X)
               = map (map (length (A:=R))) (map (map (fuse_vec w' (embeddings self))) X)).
  { rewrite !map_map. apply map_ext. intros s. rewrite !map_map. apply map_ext. intros v.
    now rewrite !fuse_vec_length. }
  assert (HS : steps_ok (map (map (fuse_vec w (embeddings self))) X)
               = steps_ok (map (map (fuse_vec w' (embeddings self))) X)).
  { unfold steps_ok. rewrite !forallb_map with (f' := fun s : list (list R) =>
                                                          negb (length s =? 0)%nat);
      [reflexivity | |]; intros s; now rewrite length_map. }
  pose proof (encode_skeleton w w' self mode g g' _ _ HU) as HEn.
  rewrite (width_ok_widths _ _ _ HU), HS.
  destruct (width_ok (input_size (lstm self)) _ && steps_ok _); [| reflexivity].
  rewrite (width_ok_widths _ _ _ HEn).
  destruct (width_ok (in_features (fc self)) _); reflexivity.
Qed.

Lemma forward_outcome_independent_witness :
  has_shape [1; 2; 11]%nat 3 ex_X
  /\ exception_of (forward ex_w ex_model ex_g 3 ex_X)
     = exception_of (forward ex_w9 (DRSA_train false ex_model) cx_g 3 ex_X).
Proof.
  split; [apply ex_X_shape |].
  apply (forward_outcome_independent ex_w ex_w9 ex_model false ex_g cx_g 1 2 11 ex_X
           ex_X_shape).
Defined.
